(** * Syncplay: the room synchronisation core

    A shallow embedding of the server (index.ts: room state store, sync hub,
    session and invite handling) and of the browser reconciler
    (public/app.js), followed by the properties of the design document that
    are settled on it.

    Conventions of the embedding.
    - A JavaScript number is a binary64 float ([PrimFloat.float]).
    - [Date.now()] and [new Date().toISOString()] read the wall clock.  The
      clock is a function from the number of reads made so far to the
      instant read, in milliseconds; every read advances the counter.  An
      ISO timestamp is represented by the instant it denotes.
    - A SQLite table with a UNIQUE or PRIMARY KEY column is a finite map
      keyed by that column.
    - A JavaScript [Set] is a duplicate-free list in insertion order.
    - Fields of a parsed JSON payload are JSON scalars (or absent); a
      request body is the object it parses to.
    - Instants ([Date.now()], [ignoreEventsUntil]) are integers: whole
      milliseconds, on which binary64 arithmetic is exact.
    - The media element is the record of the properties the script reads
      and writes; what it does by itself on a change of source is a
      parameter ([Client.Browser]).
    - Random tokens are arguments of the handlers that draw them.
    - A string is the sequence of its code units, a unit being a byte
      ([Ascii.ascii]): the strings of the Latin-1 range. *)

From Stdlib Require Import ZArith Floats Lia Sorted.
From stdpp Require Import gmap strings list.

Local Open Scope Z_scope.

(* ===================================================================== *)
(** * JavaScript values and coercions                                    *)
(* ===================================================================== *)

Module Js.

Inductive Value :=
| Undefined
| Null
| Bool (b : bool)
| Num (x : float)
| Str (s : string).

(** [a ?? b] *)
Definition nullish (a b : Value) : Value :=
  match a with
  | Undefined | Null => b
  | _ => a
  end.

(** [a ?? b] where the left operand is [T | undefined] *)
Definition coalesce {A} (a : option A) (b : A) : A :=
  match a with
  | Some x => x
  | None => b
  end.

(** [a ?? b] where the left operand is [T | null | undefined] and the right
    one [T | null]; [Some None] is [null]. *)
Definition coalesce_nullable {A} (a : option (option A)) (b : option A) : option A :=
  match a with
  | Some (Some x) => Some x
  | Some None | None => b
  end.

(** [Number(v)]; the numeric reading of a string is the engine's
    StringToNumber, passed as [parse]. *)
Definition Number (parse : string → float) (v : Value) : float :=
  match v with
  | Undefined => nan
  | Null => zero
  | Bool true => one
  | Bool false => zero
  | Num x => x
  | Str s => parse s
  end.

(** [Number.isFinite(x)] for a number [x] *)
Definition isFinite (x : float) : bool := is_finite x.

(** [a === "lit"] *)
Definition is_string (lit : string) (a : Value) : bool :=
  match a with
  | Str s => String.eqb s lit
  | _ => false
  end.

(** [lits.includes(a)] for an array of string literals *)
Definition includes (lits : list string) (a : Value) : bool :=
  existsb (λ lit, is_string lit a) lits.

(** truthiness of a number: [0], [-0] and [NaN] are falsy *)
Definition truthy_num (x : float) : bool := negb (is_zero x || is_nan x).

(** truthiness of [string | null] *)
Definition truthy_str (s : option string) : bool :=
  match s with
  | Some s => negb (String.eqb s "")
  | None => false
  end.

(** [a || b] on numbers *)
Definition or_num (a b : float) : float := if truthy_num a then a else b.

(** [Math.max(a, b)]: NaN if either is NaN, and [+0] is larger than [-0]. *)
Definition Math_max (a b : float) : float :=
  if is_nan a || is_nan b then nan
  else if ltb a b then b
  else if ltb b a then a
  else if get_sign a then b else a.

(** [Math.abs(x)] *)
Definition Math_abs (x : float) : float := abs x.

(** An integer number of milliseconds as a number (exact below 2^53). *)
Definition of_Z (z : Z) : float :=
  if z <? 0 then opp (of_uint63 (Uint63.of_Z (- z))) else of_uint63 (Uint63.of_Z z).

End Js.

(* ===================================================================== *)
(** * Stateful code                                                       *)
(* ===================================================================== *)

(** Code that reads and writes a state [S] and returns an [A]. *)
Definition ST (S A : Type) : Type := S → A * S.

Definition ret {S A} (a : A) : ST S A := λ s, (a, s).
Definition bind {S A B} (m : ST S A) (k : A → ST S B) : ST S B :=
  λ s, let '(a, s1) := m s in k a s1.
Definition modify {S} (f : S → S) : ST S unit := λ s, (tt, f s).
Definition gets {S A} (f : S → A) : ST S A := λ s, (f s, s).

Notation "x <- m ;; k" := (bind m (λ x, k))
  (at level 100, m at level 99, k at level 200, right associativity).
Notation "m ;;; k" := (bind m (λ _, k))
  (at level 100, k at level 200, right associativity).

(* ===================================================================== *)
(** * The environment                                                     *)
(* ===================================================================== *)

(** The wall clock: the instant returned by the n-th read. *)
Class Clock := clock : nat → Z.

(** What the server takes from its runtime and its configuration. *)
Class ServerEnv := {
  StringToNumber : string → float;      (* numeric reading of a string *)
  String_trim : string → string;        (* String.prototype.trim *)
  String_toLowerCase : string → string; (* String.prototype.toLowerCase *)
  SESSION_TTL_HOURS : Z;
}.

(* ===================================================================== *)
(** * Server state                                                        *)
(* ===================================================================== *)

(** A row of [users], keyed by [id]. *)
Record UserRow := mkUser {
  email : string;
  is_admin : Z;
  user_created_at : Z;
}.

(** A row of [invites], keyed by [token]. *)
Record InviteRow := mkInvite {
  invite_email : option string;
  uses_remaining : Z;
  invite_expires_at : option Z;
  created_by : option string;
  invite_created_at : Z;
}.

(** A row of [sessions], keyed by [token]. *)
Record SessionRow := mkSessionRow {
  user_id : Z;
  expires_at : Z;
  session_created_at : Z;
}.

(** A row of [room_state], keyed by [room_id]. *)
Record RoomRow := mkRoom {
  video_path : option string;
  position : float;
  paused : Z;
  playback_rate : float;
  updated_at : Z;
}.

(** The data of a [{ type: "state", data }] message. *)
Record StateMsg := mkStateMsg {
  roomId : string;
  videoPath : option string;
  msg_position : float;
  msg_paused : bool;
  playbackRate : float;
  updatedAt : Z;
  serverTime : Z;
}.

(** A websocket connection, by identity. *)
Definition Socket := nat.

Record Server := mkServer {
  users : gmap Z UserRow;
  invites : gmap string InviteRow;
  sessions : gmap string SessionRow;
  room_state : gmap string RoomRow;
  socketsByRoom : gmap string (list Socket);
  tick : nat;                         (* clock reads made so far *)
  outbox : list (Socket * StateMsg);  (* every [socket.send], oldest first *)
}.

Definition set_users (f : gmap Z UserRow → gmap Z UserRow) (s : Server) : Server :=
  mkServer (f (users s)) (invites s) (sessions s) (room_state s) (socketsByRoom s) (tick s) (outbox s).
Definition set_invites (f : gmap string InviteRow → gmap string InviteRow) (s : Server) : Server :=
  mkServer (users s) (f (invites s)) (sessions s) (room_state s) (socketsByRoom s) (tick s) (outbox s).
Definition set_sessions (f : gmap string SessionRow → gmap string SessionRow) (s : Server) : Server :=
  mkServer (users s) (invites s) (f (sessions s)) (room_state s) (socketsByRoom s) (tick s) (outbox s).
Definition set_room_state (f : gmap string RoomRow → gmap string RoomRow) (s : Server) : Server :=
  mkServer (users s) (invites s) (sessions s) (f (room_state s)) (socketsByRoom s) (tick s) (outbox s).
Definition set_socketsByRoom (f : gmap string (list Socket) → gmap string (list Socket)) (s : Server) : Server :=
  mkServer (users s) (invites s) (sessions s) (room_state s) (f (socketsByRoom s)) (tick s) (outbox s).
Definition set_tick (f : nat → nat) (s : Server) : Server :=
  mkServer (users s) (invites s) (sessions s) (room_state s) (socketsByRoom s) (f (tick s)) (outbox s).
Definition set_outbox (f : list (Socket * StateMsg) → list (Socket * StateMsg)) (s : Server) : Server :=
  mkServer (users s) (invites s) (sessions s) (room_state s) (socketsByRoom s) (tick s) (f (outbox s)).

(** Server code runs in the state monad over [Server]. *)
Definition M : Type → Type := ST Server.

(** [Date.now()] *)
Definition Date_now `{Clock} : M Z :=
  λ s, (clock (tick s), set_tick S s).

(** [nowIso()] *)
Definition nowIso `{Clock} : M Z := Date_now.

(* ===================================================================== *)
(** * Room state store                                                    *)
(* ===================================================================== *)

Definition getRoomState `{Clock} (roomId : string) : M RoomRow :=
  row <- gets (λ s, room_state s !! roomId) ;;
  match row with
  | None =>
      now <- nowIso ;;
      let state := mkRoom None zero 1 one now in
      modify (set_room_state (insert roomId state)) ;;;
      ret state
  | Some row => ret row
  end.

(** The [Partial<...>] argument of [updateRoomState]: [None] is an absent
    (or [undefined]) property. *)
Record Updates := mkUpdates {
  upd_video_path : option (option string);
  upd_position : option float;
  upd_paused : option Z;
  upd_playback_rate : option float;
}.

Definition updateRoomState `{Clock} (roomId : string) (updates : Updates) : M RoomRow :=
  current <- getRoomState roomId ;;
  now <- nowIso ;;
  let next := mkRoom
    (Js.coalesce_nullable (upd_video_path updates) (video_path current))
    (Js.coalesce (upd_position updates) (position current))
    (Js.coalesce (upd_paused updates) (paused current))
    (Js.coalesce (upd_playback_rate updates) (playback_rate current))
    now in
  (* UPDATE room_state SET ... WHERE room_id = ? *)
  modify (set_room_state (alter (λ _, next) roomId)) ;;;
  ret next.

(* ===================================================================== *)
(** * Sync hub                                                            *)
(* ===================================================================== *)

(** [sockets.add(ws)] *)
Definition Set_add (ws : Socket) (sockets : list Socket) : list Socket :=
  if bool_decide (ws ∈ sockets) then sockets else sockets ++ [ws].

(** [sockets.delete(ws)] *)
Definition Set_delete (ws : Socket) (sockets : list Socket) : list Socket :=
  filter (λ x, x ≠ ws) sockets.

Definition send (ws : Socket) (message : StateMsg) : M unit :=
  modify (set_outbox (λ o, o ++ [(ws, message)])).

Fixpoint send_each (sockets : list Socket) (message : StateMsg) : M unit :=
  match sockets with
  | [] => ret tt
  | socket :: rest => send socket message ;;; send_each rest message
  end.

Definition broadcastRoom (roomId : string) (message : StateMsg) : M unit :=
  sockets <- gets (λ s, socketsByRoom s !! roomId) ;;
  match sockets with
  | None => ret tt
  | Some sockets => send_each sockets message
  end.

Definition ensureRoomSockets (roomId : string) : M (list Socket) :=
  modify (set_socketsByRoom (λ m,
    match m !! roomId with
    | None => <[roomId := []]> m
    | Some _ => m
    end)) ;;;
  gets (λ s, default [] (socketsByRoom s !! roomId)).

(** The state message built from a row; [serverTime: Date.now()] is read
    while the message is built. *)
Definition state_message `{Clock} (roomId : string) (state : RoomRow) : M StateMsg :=
  now <- Date_now ;;
  ret (mkStateMsg roomId (video_path state) (position state)
         (paused state =? 1) (playback_rate state) (updated_at state) now).

(** websocket.open *)
Definition ws_open `{Clock} (ws : Socket) (roomId : string) : M unit :=
  ensureRoomSockets roomId ;;;
  modify (set_socketsByRoom (alter (Set_add ws) roomId)) ;;;
  state <- getRoomState roomId ;;
  message <- state_message roomId state ;;
  send ws message.

(** websocket.close *)
Definition ws_close (ws : Socket) (roomId : string) : M unit :=
  modify (set_socketsByRoom (alter (Set_delete ws) roomId)).

(** The object a text frame parses to, read at the four properties the
    handler looks at. *)
Record Payload := mkPayload {
  payload_type : Js.Value;
  payload_action : Js.Value;
  payload_position : Js.Value;
  payload_playbackRate : Js.Value;
}.

(** The outcome of [JSON.parse(text)]. *)
Inductive Frame :=
| Unparsable                   (* JSON.parse throws *)
| NotAnObject                  (* null, or a value that is not an object *)
| Object (payload : Payload).

Definition action_kinds : list string := ["play"; "pause"; "seek"; "rate"; "sync"].

(** websocket.message *)
Definition ws_message `{Clock} `{ServerEnv} (ws : Socket) (roomId : string) (frame : Frame) : M unit :=
  match frame with
  | Unparsable => ret tt
  | NotAnObject => ret tt
  | Object payload =>
      if Js.is_string "action" (payload_type payload) then
        let action := payload_action payload in
        let position := Js.Number StringToNumber (Js.nullish (payload_position payload) (Js.Num zero)) in
        let playbackRate := Js.Number StringToNumber (Js.nullish (payload_playbackRate payload) (Js.Num one)) in
        if Js.includes action_kinds action then
          let paused :=
            if Js.is_string "pause" action then Some 1
            else if Js.is_string "play" action then Some 0
            else None in
          next <- updateRoomState roomId
                    (mkUpdates None
                       (if Js.isFinite position then Some position else None)
                       paused
                       (if Js.isFinite playbackRate then Some playbackRate else None)) ;;
          message <- state_message roomId next ;;
          broadcastRoom roomId message
        else ret tt
      else ret tt
  end.

(* ===================================================================== *)
(** * Sessions, users and invites                                         *)
(* ===================================================================== *)

(** What a handler reads of a request: the value of the [sp_session]
    cookie, if the header carries one. *)
Record Request := mkRequest {
  cookie_sp_session : option string;
}.

(** The result of [getSession]. *)
Record Session := mkSession {
  userId : Z;
  session_email : string;
  isAdmin : bool;
}.

Inductive Response :=
| JsonOk                                   (* 200 { ok: true } *)
| JsonOkSetCookie (sp_session : string)    (* 200 { ok: true }, Set-Cookie *)
| JsonError (status : Z) (error : string)
| JsonUser (user : option Session)
| JsonFiles
| JsonRoomState (data : StateMsg)
| JsonInvite (token : string)
| JsonInvites (rows : list (string * InviteRow))
| Uncaught.                                (* a statement threw *)

Inductive Auth :=
| AuthOk (session : Session)
| AuthFail (response : Response).

(** AUTOINCREMENT on a table no row is ever deleted from. *)
Definition next_rowid {V} (table : gmap Z V) : Z :=
  1 + map_fold (λ id _ acc, Z.max id acc) 0 table.

(** [SELECT id FROM users WHERE email = ?] *)
Definition select_user_by_email (table : gmap Z UserRow) (e : string) : option (Z * UserRow) :=
  List.find (λ r, String.eqb (email r.2) e) (map_to_list table).

Definition set_is_admin (v : Z) (u : UserRow) : UserRow :=
  mkUser (email u) v (user_created_at u).

Definition getSession `{Clock} (request : Request) : M (option Session) :=
  match cookie_sp_session request with
  | None => ret None
  | Some token =>
      if String.eqb token "" then ret None
      else
        (* sessions JOIN users ON users.id = sessions.user_id *)
        row <- gets (λ s,
                 match sessions s !! token with
                 | Some sess =>
                     match users s !! user_id sess with
                     | Some u => Some (sess, u)
                     | None => None
                     end
                 | None => None
                 end) ;;
        match row with
        | None => ret None
        | Some (sess, u) =>
            now <- Date_now ;;
            if expires_at sess <? now then
              modify (set_sessions (delete token)) ;;;
              ret None
            else
              ret (Some (mkSession (user_id sess) (email u) (is_admin u =? 1)))
        end
  end.

(** [INSERT INTO users ... ON CONFLICT(email) DO UPDATE SET is_admin =
    excluded.is_admin].  [email] is UNIQUE, so the rows carrying the email
    are the conflicting row, if there is one. *)
Definition upsertUser `{Clock} (e : string) (isAdmin : bool) : M unit :=
  now <- nowIso ;;
  let v := if isAdmin then 1 else 0 in
  modify (set_users (λ table,
    match select_user_by_email table e with
    | Some _ => (λ u, if String.eqb (email u) e then set_is_admin v u else u) <$> table
    | None => <[next_rowid table := mkUser e v now]> table
    end)).

Fixpoint upsert_each `{Clock} (emails : list string) : M unit :=
  match emails with
  | [] => ret tt
  | e :: rest => upsertUser e true ;;; upsert_each rest
  end.

Definition seedUsers `{Clock} (NODE_ENV : string) (TEST_USERS ADMIN_EMAILS : list string) : M unit :=
  let TEST_USERS :=
    if negb (String.eqb NODE_ENV "production") && (length TEST_USERS =? 0)%nat
    then TEST_USERS ++ ["admin@example.com"; "user1@example.com"; "user2@example.com"]
    else TEST_USERS in
  upsert_each TEST_USERS ;;;
  upsert_each ADMIN_EMAILS.

Definition requireAuth `{Clock} (request : Request) : M Auth :=
  session <- getSession request ;;
  match session with
  | None => ret (AuthFail (JsonError 401 "Unauthorized"))
  | Some session => ret (AuthOk session)
  end.

Definition requireAdmin `{Clock} (request : Request) : M Auth :=
  auth <- requireAuth request ;;
  match auth with
  | AuthFail _ => ret auth
  | AuthOk session =>
      if negb (isAdmin session) then ret (AuthFail (JsonError 403 "Forbidden"))
      else ret auth
  end.

(** [INSERT INTO sessions ...]; [token] is UNIQUE, and the statement throws
    on a token the table already has.  The result tells whether the row
    went in. *)
Definition insert_session (token : string) (row : SessionRow) : M bool :=
  present <- gets (λ s, sessions s !! token) ;;
  match present with
  | Some _ => ret false
  | None => modify (set_sessions (insert token row)) ;;; ret true
  end.

(** [INSERT INTO invites ...], with [token] UNIQUE likewise. *)
Definition insert_invite (token : string) (row : InviteRow) : M bool :=
  present <- gets (λ s, invites s !! token) ;;
  match present with
  | Some _ => ret false
  | None => modify (set_invites (insert token row)) ;;; ret true
  end.

(** The tail shared by login and invite acceptance: a fresh session for
    [id] and its cookie.  [sessionToken] is the outcome of
    [randomToken(32)]. *)
Definition open_session `{Clock} `{ServerEnv} (id : Z) (sessionToken : string) : M Response :=
  now <- Date_now ;;
  let expiresAt := now + SESSION_TTL_HOURS * 3600 * 1000 in
  created <- nowIso ;;
  inserted <- insert_session sessionToken (mkSessionRow id expiresAt created) ;;
  if inserted then ret (JsonOkSetCookie sessionToken) else ret Uncaught.

(** POST /api/auth/login *)
Definition api_auth_login `{Clock} `{ServerEnv}
    (body_email : option string) (sessionToken : string) : M Response :=
  let e := String_toLowerCase (String_trim (Js.coalesce body_email "")) in
  if String.eqb e "" then ret (JsonError 400 "Email required")
  else
    user <- gets (λ s, select_user_by_email (users s) e) ;;
    match user with
    | None => ret (JsonError 403 "Email not invited")
    | Some (id, _) =>
        (* UPDATE users SET is_admin = 1 WHERE id = ? *)
        modify (set_users (alter (set_is_admin 1) id)) ;;;
        open_session id sessionToken
    end.

(** POST /api/auth/logout *)
Definition api_auth_logout `{Clock} (request : Request) : M Response :=
  session <- getSession request ;;
  match session with
  | Some session =>
      (* DELETE FROM sessions WHERE user_id = ? *)
      modify (set_sessions (filter (λ kv, user_id kv.2 ≠ userId session))) ;;;
      ret (JsonOkSetCookie "")
  | None => ret (JsonOkSetCookie "")
  end.

(** POST /api/invites/create; [token] is the outcome of [randomToken(24)]. *)
Definition api_invites_create `{Clock} `{ServerEnv}
    (request : Request) (body_email : option string) (token : string) : M Response :=
  auth <- requireAdmin request ;;
  match auth with
  | AuthFail response => ret response
  | AuthOk session =>
      let e := match body_email with
               | Some e => String_toLowerCase (String_trim e)
               | None => ""
               end in
      if String.eqb e "" then ret (JsonError 400 "Email required")
      else
        now <- nowIso ;;
        inserted <- insert_invite token
                      (mkInvite (Some e) 1 None (Some (session_email session)) now) ;;
        if inserted then ret (JsonInvite token) else ret Uncaught
  end.

(** POST /api/invites/accept *)
Definition api_invites_accept `{Clock} `{ServerEnv}
    (body_token body_email : option string) (sessionToken : string) : M Response :=
  let token := String_trim (Js.coalesce body_token "") in
  let e := String_toLowerCase (String_trim (Js.coalesce body_email "")) in
  if String.eqb token "" || String.eqb e "" then ret (JsonError 400 "Token and email required")
  else
    invite <- gets (λ s, invites s !! token) ;;
    match invite with
    | None => ret (JsonError 404 "Invalid invite")
    | Some invite =>
        if Js.truthy_str (invite_email invite)
           && negb (bool_decide (invite_email invite = Some e))
        then ret (JsonError 403 "Invite is for a different email")
        else
          expired <- match invite_expires_at invite with
                     | Some t => now <- Date_now ;; ret (t <? now)
                     | None => ret false
                     end ;;
          if expired then ret (JsonError 403 "Invite expired")
          else if uses_remaining invite <=? 0 then ret (JsonError 403 "Invite used up")
          else
            upsertUser e true ;;;
            (* UPDATE invites SET uses_remaining = uses_remaining - 1 WHERE id = ? *)
            modify (set_invites (alter (λ i,
              mkInvite (invite_email i) (uses_remaining i - 1) (invite_expires_at i)
                       (created_by i) (invite_created_at i)) token)) ;;;
            user <- gets (λ s, select_user_by_email (users s) e) ;;
            match user with
            | None => ret (JsonError 403 "Email not invited")
            | Some (id, _) => open_session id sessionToken
            end
    end.

(** GET /api/invites *)
Definition api_invites `{Clock} (request : Request) : M Response :=
  auth <- requireAdmin request ;;
  match auth with
  | AuthFail response => ret response
  | AuthOk _ => rows <- gets (λ s, map_to_list (invites s)) ;; ret (JsonInvites rows)
  end.

(** GET /api/me *)
Definition api_me `{Clock} (request : Request) : M Response :=
  session <- getSession request ;;
  ret (JsonUser session).

(** GET /api/videos and GET /api/subtitles: the session check, then a
    listing of the video directory that touches no server state. *)
Definition api_videos `{Clock} (request : Request) : M Response :=
  auth <- requireAuth request ;;
  match auth with
  | AuthFail response => ret response
  | AuthOk _ => ret JsonFiles
  end.

(** GET /api/room/state *)
Definition api_room_state `{Clock} (request : Request) (room : option string) : M Response :=
  auth <- requireAuth request ;;
  match auth with
  | AuthFail response => ret response
  | AuthOk _ =>
      let roomId := Js.coalesce room "main" in
      state <- getRoomState roomId ;;
      data <- state_message roomId state ;;
      ret (JsonRoomState data)
  end.

(** The body of POST /api/room/set-video: [None] is an absent property,
    [Some None] is [null]. *)
Record SetVideoBody := mkSetVideoBody {
  body_roomId : option string;
  body_videoPath : option (option string);
}.

(** POST /api/room/set-video *)
Definition api_room_set_video `{Clock} (request : Request) (body : SetVideoBody) : M Response :=
  auth <- requireAdmin request ;;
  match auth with
  | AuthFail response => ret response
  | AuthOk _ =>
      let roomId := Js.coalesce (body_roomId body) "main" in
      let videoPath := Js.coalesce_nullable (body_videoPath body) None in
      next <- updateRoomState roomId (mkUpdates (Some videoPath) (Some zero) (Some 1) None) ;;
      message <- state_message roomId next ;;
      broadcastRoom roomId message ;;;
      ret JsonOk
  end.

(** GET /ws: the session check, then the upgrade, which opens the socket. *)
Definition ws_connect `{Clock} (request : Request) (room : option string) (ws : Socket) : M Response :=
  let roomId := Js.coalesce room "main" in
  auth <- requireAuth request ;;
  match auth with
  | AuthFail response => ret response
  | AuthOk _ => ws_open ws roomId ;;; ret JsonOk
  end.

(** tools/invite.ts, for one address of its command line. *)
Definition cli_invite `{Clock} (e : string) (token : string) : M bool :=
  now <- nowIso ;;
  insert_invite token (mkInvite (Some e) 1 None (Some "cli") now).

(** What reaches the server. *)
Inductive Event :=
| GetMe (request : Request)
| GetVideos (request : Request)
| GetRoomState (request : Request) (room : option string)
| PostSetVideo (request : Request) (body : SetVideoBody)
| PostLogin (body_email : option string) (sessionToken : string)
| PostLogout (request : Request)
| PostInvitesCreate (request : Request) (body_email : option string) (token : string)
| PostInvitesAccept (body_token body_email : option string) (sessionToken : string)
| GetInvites (request : Request)
| WsConnect (request : Request) (room : option string) (ws : Socket)
| WsMessage (ws : Socket) (roomId : string) (frame : Frame)
| WsClose (ws : Socket) (roomId : string)
| CliInvite (e : string) (token : string).

Definition handle `{Clock} `{ServerEnv} (ev : Event) : M unit :=
  match ev with
  | GetMe request => api_me request ;;; ret tt
  | GetVideos request => api_videos request ;;; ret tt
  | GetRoomState request room => api_room_state request room ;;; ret tt
  | PostSetVideo request body => api_room_set_video request body ;;; ret tt
  | PostLogin body_email sessionToken => api_auth_login body_email sessionToken ;;; ret tt
  | PostLogout request => api_auth_logout request ;;; ret tt
  | PostInvitesCreate request body_email token =>
      api_invites_create request body_email token ;;; ret tt
  | PostInvitesAccept body_token body_email sessionToken =>
      api_invites_accept body_token body_email sessionToken ;;; ret tt
  | GetInvites request => api_invites request ;;; ret tt
  | WsConnect request room ws => ws_connect request room ws ;;; ret tt
  | WsMessage ws roomId frame => ws_message ws roomId frame
  | WsClose ws roomId => ws_close ws roomId
  | CliInvite e token => cli_invite e token ;;; ret tt
  end.

(** The server after a sequence of events, oldest first. *)
Definition run `{Clock} `{ServerEnv} (evs : list Event) (s : Server) : Server :=
  fold_left (λ s ev, (handle ev s).2) evs s.

(** A server on an empty database, before [seedUsers]. *)
Definition empty_server : Server := mkServer ∅ ∅ ∅ ∅ ∅ 0%nat [].

(* ===================================================================== *)
(** * Client reconciler (public/app.js)                                   *)
(* ===================================================================== *)

Module Client.

(** The media element [el.videoPlayer], at the properties the reconciler
    reads and writes. *)
Record Video := mkVideo {
  src : option string;
  currentTime : float;
  el_playbackRate : float;
  el_paused : bool;
  seeking : bool;
}.

(** What the element does by itself when its source is replaced or removed
    (the load algorithm of the browser). *)
Class Browser := load_algorithm : Video → Video.

(** The calls the reconciler makes on the element. *)
Inductive Call :=
| Assign_src (videoPath : string)
| Remove_src_and_load
| Assign_playbackRate (rate : float)
| Assign_currentTime (t : float)
| Call_pause
| Call_play.

(** The data of a state message, as received. *)
Record Data := mkData {
  videoPath : option string;
  position : float;
  paused : bool;
  playbackRate : float;
  serverTime : float;
}.

(** An outbound [{ type: "action", ... }] message. *)
Record Action := mkAction {
  action : string;
  action_position : float;
  action_playbackRate : float;
}.

(** The [state] object, the element, and what went out. *)
Record State := mkState {
  ws_ready : bool;              (* state.ws is set and OPEN *)
  applyingRemote : bool;
  currentVideo : option string;
  ignoreEventsUntil : Z;
  el : Video;
  reads : nat;                  (* clock reads made so far *)
  sent : list Action;           (* every [ws.send], oldest first *)
  calls : list Call;            (* every call on the element, oldest first *)
}.

Definition set_ws_ready (b : bool) (c : State) : State :=
  mkState b (applyingRemote c) (currentVideo c) (ignoreEventsUntil c) (el c) (reads c) (sent c) (calls c).
Definition set_applyingRemote (b : bool) (c : State) : State :=
  mkState (ws_ready c) b (currentVideo c) (ignoreEventsUntil c) (el c) (reads c) (sent c) (calls c).
Definition set_currentVideo (v : option string) (c : State) : State :=
  mkState (ws_ready c) (applyingRemote c) v (ignoreEventsUntil c) (el c) (reads c) (sent c) (calls c).
Definition set_ignoreEventsUntil (t : Z) (c : State) : State :=
  mkState (ws_ready c) (applyingRemote c) (currentVideo c) t (el c) (reads c) (sent c) (calls c).
Definition set_el (f : Video → Video) (c : State) : State :=
  mkState (ws_ready c) (applyingRemote c) (currentVideo c) (ignoreEventsUntil c) (f (el c)) (reads c) (sent c) (calls c).
Definition set_reads (f : nat → nat) (c : State) : State :=
  mkState (ws_ready c) (applyingRemote c) (currentVideo c) (ignoreEventsUntil c) (el c) (f (reads c)) (sent c) (calls c).
Definition set_sent (f : list Action → list Action) (c : State) : State :=
  mkState (ws_ready c) (applyingRemote c) (currentVideo c) (ignoreEventsUntil c) (el c) (reads c) (f (sent c)) (calls c).
Definition set_calls (f : list Call → list Call) (c : State) : State :=
  mkState (ws_ready c) (applyingRemote c) (currentVideo c) (ignoreEventsUntil c) (el c) (reads c) (sent c) (f (calls c)).

(** The state the script starts from. *)
Definition initial (v : Video) : State :=
  mkState false false None 0 v 0%nat [] [].

(** [Date.now()] *)
Definition Date_now `{Clock} : ST State Z :=
  λ c, (clock (reads c), set_reads S c).

(** A call on the element: logged, then the element changes. *)
Definition call (what : Call) (effect : Video → Video) : ST State unit :=
  modify (set_calls (λ l, l ++ [what])) ;;;
  modify (set_el effect).

Definition assign_src `{Browser} (path : string) : ST State unit :=
  call (Assign_src path)
    (λ v, load_algorithm (mkVideo (Some path) (currentTime v) (el_playbackRate v) (el_paused v) (seeking v))).

Definition remove_src_and_load `{Browser} : ST State unit :=
  call Remove_src_and_load
    (λ v, load_algorithm (mkVideo None (currentTime v) (el_playbackRate v) (el_paused v) (seeking v))).

Definition assign_playbackRate (rate : float) : ST State unit :=
  call (Assign_playbackRate rate)
    (λ v, mkVideo (src v) (currentTime v) rate (el_paused v) (seeking v)).

Definition assign_currentTime (t : float) : ST State unit :=
  call (Assign_currentTime t)
    (λ v, mkVideo (src v) t (el_playbackRate v) (el_paused v) (seeking v)).

Definition call_pause : ST State unit :=
  call Call_pause
    (λ v, mkVideo (src v) (currentTime v) (el_playbackRate v) true (seeking v)).

Definition call_play : ST State unit :=
  call Call_play
    (λ v, mkVideo (src v) (currentTime v) (el_playbackRate v) false (seeking v)).

(** 0.4, the drift tolerance, as the binary64 number the literal denotes *)
Definition DRIFT_TOLERANCE : float := 0x1.999999999999ap-2%float.

(** The source switch of [applyState] (the subtitle and label updates it
    also makes touch neither the element's playback nor [state]'s
    suppression fields). *)
Definition switch_video `{Browser} (videoPath : option string) : ST State unit :=
  current <- gets currentVideo ;;
  if bool_decide (videoPath ≠ current) then
    modify (set_currentVideo videoPath) ;;;
    match videoPath with
    | Some path =>
        if Js.truthy_str videoPath then assign_src path else remove_src_and_load
    | None => remove_src_and_load
    end
  else ret tt.

(** [Math.max(0, (Date.now() - (serverTime || Date.now())) / 1000)] *)
Definition elapsed_seconds `{Clock} (serverTime : float) : ST State float :=
  now <- Date_now ;;
  reference <- (if Js.truthy_num serverTime then ret serverTime
                else now' <- Date_now ;; ret (Js.of_Z now')) ;;
  ret (Js.Math_max zero ((Js.of_Z now - reference) / 1000)%float).

(** [paused ? position : position + delta * el.videoPlayer.playbackRate] *)
Definition target_time (data : Data) (delta rate : float) : float :=
  if paused data then position data else (position data + delta * rate)%float.

(** The body of [if (videoPath) { ... }] in [applyState]: the drift check,
    then pause or play. *)
Definition sync_playback `{Clock} (data : Data) : ST State unit :=
  delta <- elapsed_seconds (serverTime data) ;;
  rate <- gets (λ c, el_playbackRate (el c)) ;;
  let targetTime := target_time data delta rate in
  (if Js.isFinite targetTime then
     local <- gets (λ c, currentTime (el c)) ;;
     let diff := Js.Math_abs (local - targetTime)%float in
     if (DRIFT_TOLERANCE <? diff)%float then assign_currentTime targetTime else ret tt
   else ret tt) ;;;
  (if paused data then call_pause else call_play).

Definition applyState `{Clock} `{Browser} (data : Data) : ST State unit :=
  modify (set_applyingRemote true) ;;;
  switch_video (videoPath data) ;;;
  assign_playbackRate (Js.or_num (playbackRate data) one) ;;;
  (if Js.truthy_str (videoPath data) then sync_playback data else ret tt) ;;;
  modify (set_applyingRemote false) ;;;
  now <- Date_now ;;
  modify (set_ignoreEventsUntil (now + 600)).

Definition sendAction (kind : string) : ST State unit :=
  ready <- gets ws_ready ;;
  if ready then
    v <- gets el ;;
    modify (set_sent (λ l, l ++ [mkAction kind (currentTime v) (el_playbackRate v)]))
  else ret tt.

(** The element's [play] listener *)
Definition on_play `{Clock} : ST State unit :=
  applying <- gets applyingRemote ;;
  if applying then ret tt
  else
    now <- Date_now ;;
    until <- gets ignoreEventsUntil ;;
    if now <? until then ret tt
    else sendAction "play".

(** The element's [pause] listener *)
Definition on_pause `{Clock} : ST State unit :=
  applying <- gets applyingRemote ;;
  if applying then ret tt
  else
    now <- Date_now ;;
    until <- gets ignoreEventsUntil ;;
    if now <? until then ret tt
    else
      busy <- gets (λ c, seeking (el c)) ;;
      if busy then ret tt
      else sendAction "pause".

(** The element's [seeked] listener *)
Definition on_seeked `{Clock} : ST State unit :=
  applying <- gets applyingRemote ;;
  if applying then ret tt
  else
    now <- Date_now ;;
    until <- gets ignoreEventsUntil ;;
    if now <? until then ret tt
    else sendAction "seek".

(** The element's [ratechange] listener *)
Definition on_ratechange `{Clock} : ST State unit :=
  applying <- gets applyingRemote ;;
  if applying then ret tt
  else
    now <- Date_now ;;
    until <- gets ignoreEventsUntil ;;
    if now <? until then ret tt
    else sendAction "rate".

(** The two seek buttons *)
Definition on_seekBack : ST State unit :=
  local <- gets (λ c, currentTime (el c)) ;;
  assign_currentTime (Js.Math_max zero (local - 10)%float) ;;;
  sendAction "seek".

Definition on_seekForward : ST State unit :=
  local <- gets (λ c, currentTime (el c)) ;;
  assign_currentTime (local + 10)%float ;;;
  sendAction "seek".

(** What happens to the script: a state message arrives, the element
    fires an event, a button is clicked; and what happens around it: the
    element moves on (playback, native controls), the socket opens or
    closes. *)
Inductive Event :=
| StateMessage (data : Data)
| PlayEvent
| PauseEvent
| SeekedEvent
| RateChangeEvent
| SeekBackClick
| SeekForwardClick
| ElementMoves (v : Video)
| SocketReady (b : bool).

Definition handle `{Clock} `{Browser} (ev : Event) : ST State unit :=
  match ev with
  | StateMessage data => applyState data
  | PlayEvent => on_play
  | PauseEvent => on_pause
  | SeekedEvent => on_seeked
  | RateChangeEvent => on_ratechange
  | SeekBackClick => on_seekBack
  | SeekForwardClick => on_seekForward
  | ElementMoves v => modify (set_el (λ _, v))
  | SocketReady b => modify (set_ws_ready b)
  end.

(** The script after a sequence of events, oldest first. *)
Definition run `{Clock} `{Browser} (evs : list Event) (c : State) : State :=
  fold_left (λ c ev, (handle ev c).2) evs c.

(** ** The vocabulary of its properties *)

(** The pause actions among what went out. *)
Definition pauses (l : list Action) : list Action :=
  filter (λ a, action a = "pause") l.

(** [applyState] up to the point where it leaves the applying state. *)
Definition applying `{Clock} `{Browser} (data : Data) : ST State unit :=
  modify (set_applyingRemote true) ;;;
  switch_video (videoPath data) ;;;
  assign_playbackRate (Js.or_num (playbackRate data) one) ;;;
  (if Js.truthy_str (videoPath data) then sync_playback data else ret tt).

(** The reconciler is idle, and its suppression deadline is 600ms after a
    clock reading made at or after read [k0]. *)
Definition suppressing `{Clock} (k0 : nat) (c : State) : Prop :=
  applyingRemote c = false ∧
  ∃ k, (k0 ≤ k < reads c)%nat ∧ ignoreEventsUntil c = clock k + 600.

(** What an event keeps: the reconciler suppressing, the pause actions that
    went out, and the clock read forward. *)
Definition calm `{Clock} (k0 : nat) (c c' : State) : Prop :=
  suppressing k0 c' ∧ pauses (sent c') = pauses (sent c) ∧ (reads c ≤ reads c')%nat.

(** The reconciler once [applyState] has switched the source (if the
    message names another video) and set the playback rate: the state the
    drift check runs in. *)
Definition before_sync `{Browser} (data : Data) (c : State) : State :=
  (assign_playbackRate (Js.or_num (playbackRate data) one)
     (switch_video (videoPath data) (set_applyingRemote true c)).2).2.

(** The position the element reports to the drift check. *)
Definition local_position `{Browser} (data : Data) (c : State) : float :=
  currentTime (el (before_sync data c)).


(** A message whose video is the one loaded makes no call on the source. *)
Definition leaves_source (x : Call) : Prop :=
  match x with
  | Assign_src _ | Remove_src_and_load => False
  | _ => True
  end.

(** An event that comes from the element, not from a button of the page. *)
Definition from_element (ev : Event) : Prop :=
  ev ≠ SeekBackClick ∧ ev ≠ SeekForwardClick.

(** What [JSON.parse] reads back from what [JSON.stringify] wrote for a
    number: a number that is not finite goes out as null, negative zero as
    the digit 0, and any other number as digits that read back as itself. *)
Definition json_number (x : float) : Js.Value :=
  if Js.isFinite x then Js.Num (if is_zero x then zero else x) else Js.Null.

(** The frame the hub parses out of an action the script sent. *)
Definition on_the_wire (a : Action) : Frame :=
  Object (mkPayload (Js.Str "action") (Js.Str (action a))
            (json_number (action_position a)) (json_number (action_playbackRate a))).


End Client.

(* ===================================================================== *)
(** * Page helpers (public/app.js)                                        *)
(* ===================================================================== *)

Module Page.
Import Stdlib.Strings.Ascii.

(** The first [n] units of a string, and the rest. *)
Fixpoint String_take (n : nat) (s : string) : string :=
  match n, s with
  | S n, String c s => String c (String_take n s)
  | _, _ => ""
  end.

Fixpoint String_drop (n : nat) (s : string) : string :=
  match n, s with
  | S n, String _ s => String_drop n s
  | _, _ => s
  end.

(** An index argument of [slice], brought into [0, len]: a negative index
    counts from the end. *)
Definition slice_index (len i : Z) : Z :=
  if i <? 0 then Z.max (len + i) 0 else Z.min i len.

(** [s.slice(start, end)]; [None] is an omitted [end]. *)
Definition String_slice (s : string) (start : Z) (end_ : option Z) : string :=
  let len := Z.of_nat (String.length s) in
  let from := slice_index len start in
  let to := match end_ with Some e => slice_index len e | None => len end in
  String_take (Z.to_nat (to - from)) (String_drop (Z.to_nat from) s).

(** [truncateMiddle(value, front, back)] *)
Definition truncateMiddle (value : string) (front back : Z) : string :=
  if String.eqb value "" then ""
  else if Z.of_nat (String.length value) <=? front + back + 3 then value
  else String_slice value 0 (Some front) +:+ "..." +:+ String_slice value (- back) None.

(** The label of a file in the video menu: [truncateMiddle(file)], with
    the default [front = 28] and [back = 12]. *)
Definition option_label (file : string) : string := truncateMiddle file 28 12.

(** Regular expressions, at the constructs the script uses; a class is
    given by the units it accepts. *)
Inductive RegExp :=
| Nothing
| Epsilon
| OneOf (accepts : Ascii.ascii → bool)
| Seq (r1 r2 : RegExp)
| Alt (r1 r2 : RegExp)
| Star (r : RegExp).

(** [r+] *)
Definition Plus (r : RegExp) : RegExp := Seq r (Star r).

Fixpoint nullable (r : RegExp) : bool :=
  match r with
  | Nothing | OneOf _ => false
  | Epsilon | Star _ => true
  | Seq r1 r2 => nullable r1 && nullable r2
  | Alt r1 r2 => nullable r1 || nullable r2
  end.

(** What is left of [r] to match once [c] has been read. *)
Fixpoint derivative (c : Ascii.ascii) (r : RegExp) : RegExp :=
  match r with
  | Nothing | Epsilon => Nothing
  | OneOf accepts => if accepts c then Epsilon else Nothing
  | Seq r1 r2 =>
      if nullable r1 then Alt (Seq (derivative c r1) r2) (derivative c r2)
      else Seq (derivative c r1) r2
  | Alt r1 r2 => Alt (derivative c r1) (derivative c r2)
  | Star r => Seq (derivative c r) (Star r)
  end.

(** [/^r$/.test(s)] *)
Fixpoint RegExp_test (r : RegExp) (s : string) : bool :=
  match s with
  | EmptyString => nullable r
  | String c s => RegExp_test (derivative c r) s
  end.

(** The backslash and the percent sign. *)
Definition backslash : Ascii.ascii := "\"%char.

Definition percent : Ascii.ascii := "%"%char.

(** [[^\\s@]]: any unit but a backslash, the letter s and the at sign. *)
Definition not_backslash_s_at (c : Ascii.ascii) : bool :=
  negb (Ascii.eqb c backslash || Ascii.eqb c "s"%char || Ascii.eqb c "@"%char).

(** [.]: any unit but a line terminator. *)
Definition dot (c : Ascii.ascii) : bool :=
  negb (Ascii.eqb c "010"%char || Ascii.eqb c "013"%char).

(** [/^[^\\s@]+@[^\\s@]+\\.[^\\s@]+$/] *)
Definition email_pattern : RegExp :=
  Seq (Plus (OneOf not_backslash_s_at))
 (Seq (OneOf (Ascii.eqb "@"%char))
 (Seq (Plus (OneOf not_backslash_s_at))
 (Seq (OneOf (Ascii.eqb backslash))
 (Seq (OneOf dot)
      (Plus (OneOf not_backslash_s_at)))))).

Definition isValidEmail (value : string) : bool := RegExp_test email_pattern value.

(** The strings a regular expression denotes. *)
Inductive Lang : RegExp → string → Prop :=
| Lang_Empty : Lang Epsilon ""
| Lang_Class accepts c : accepts c = true → Lang (OneOf accepts) (String c "")
| Lang_Seq r1 r2 s1 s2 : Lang r1 s1 → Lang r2 s2 → Lang (Seq r1 r2) (s1 +:+ s2)
| Lang_Alt_l r1 r2 s : Lang r1 s → Lang (Alt r1 r2) s
| Lang_Alt_r r1 r2 s : Lang r2 s → Lang (Alt r1 r2) s
| Lang_Star_nil r : Lang (Star r) ""
| Lang_Star_cons r s1 s2 : Lang r s1 → Lang (Star r) s2 → Lang (Star r) (s1 +:+ s2).

(** Every unit of the string is in the class. *)
Fixpoint every (accepts : Ascii.ascii → bool) (s : string) : bool :=
  match s with
  | EmptyString => true
  | String c s => accepts c && every accepts s
  end.

(** A non-empty string of units of the class: what [[...]+] matches. *)
Definition run_of (accepts : Ascii.ascii → bool) (s : string) : Prop :=
  s ≠ "" ∧ every accepts s = true.

(** The string holds the unit. *)
Fixpoint has_unit (c : Ascii.ascii) (s : string) : bool :=
  match s with
  | EmptyString => false
  | String c' s => Ascii.eqb c' c || has_unit c s
  end.

End Page.

(* ===================================================================== *)
(** * Cookies (index.ts)                                                  *)
(* ===================================================================== *)

Module Cookies.
Import Stdlib.Strings.Ascii.

(** The sign between the name and the value of a cookie. *)
Definition equals_sign : ascii := "=".

(** [decodeURIComponent]; [None] when it throws a URIError. *)
Class Uri := decodeURIComponent : string → option string.

(** [s.split(sep)] for a separator of one unit: the pieces between the
    separators, at least one. *)
Fixpoint split (sep : ascii) (s : string) : list string :=
  match s with
  | EmptyString => [""]
  | String c s =>
      if Ascii.eqb c sep then "" :: split sep s
      else match split sep s with
           | piece :: pieces => String c piece :: pieces
           | [] => [String c ""]
           end
  end.

(** [pieces.join(sep)] *)
Fixpoint join (sep : string) (pieces : list string) : string :=
  match pieces with
  | [] => ""
  | [piece] => piece
  | piece :: pieces => piece +:+ sep +:+ join sep pieces
  end.

(** One turn of the loop of [parseCookies]:
    [const [key, ...rest] = part.trim().split("=");
     cookies[key] = decodeURIComponent(rest.join("="));]
    On the object literal [cookies], an assignment of a string to
    [__proto__] is dropped by the setter of [Object.prototype]. *)
Definition parse_part `{ServerEnv} `{Uri}
    (cookies : gmap string string) (part : string) : option (gmap string string) :=
  let pieces := split "=" (String_trim part) in
  let key := default "undefined" (head pieces) in
  let rest := tail pieces in
  value ← decodeURIComponent (join "=" rest);
  Some (if String.eqb key "__proto__" then cookies else <[key := value]> cookies).

(** [for (const part of parts) { ... }], from the empty object; a turn
    that throws ends the loop. *)
Definition parse_parts `{ServerEnv} `{Uri} (parts : list string) : option (gmap string string) :=
  foldl (λ cookies part, cookies ≫= λ cookies, parse_part cookies part) (Some ∅) parts.

(** [parseCookies(cookieHeader)]: the own properties of the object
    returned, or [None] when [decodeURIComponent] throws. *)
Definition parseCookies `{ServerEnv} `{Uri} (cookieHeader : option string)
    : option (gmap string string) :=
  match cookieHeader with
  | None => Some ∅
  | Some header =>
      if String.eqb header "" then Some ∅ else parse_parts (split ";" header)
  end.

(** The name and the value of a part of the header. *)
Definition cookie_name `{ServerEnv} (part : string) : string :=
  default "undefined" (head (split "=" (String_trim part))).

Definition cookie_value `{ServerEnv} `{Uri} (part : string) : option string :=
  decodeURIComponent (join "=" (tail (split "=" (String_trim part)))).

End Cookies.

(* ===================================================================== *)
(** * A concrete server and a concrete viewer                             *)
(* ===================================================================== *)

(** A clock that starts on 2023-11-14 and moves a quarter of a second per
    read. *)
Definition sample_clock : Clock := λ n, 1700000000000 + 250 * Z.of_nat n.

(** A runtime for addresses already trimmed and in lower case; no string of
    the examples is read as a number. *)
Definition sample_env : ServerEnv :=
  {| StringToNumber := λ _, nan;
     String_trim := λ x, x;
     String_toLowerCase := λ x, x;
     SESSION_TTL_HOURS := 168 |}.

(** The development server after start-up, and after its administrator
    logged in. *)
Definition seeded : Server :=
  (@seedUsers sample_clock "development" [] [] empty_server).2.

Definition logged_in : Server :=
  @run sample_clock sample_env [PostLogin (Some "admin@example.com") "s3ss10n"] seeded.

Definition admin_request : Request := mkRequest (Some "s3ss10n").

Definition action_payload (kind : string) (position playbackRate : Js.Value) : Payload :=
  mkPayload (Js.Str "action") (Js.Str kind) position playbackRate.

(** What happens next: two viewers join the main room, "movie.mp4" is
    selected, and the first viewer plays from 42s. *)
Definition evening : list Event :=
  [ WsConnect admin_request None 1%nat;
    WsConnect admin_request None 2%nat;
    PostSetVideo admin_request (mkSetVideoBody None (Some (Some "movie.mp4")));
    WsMessage 1%nat "main" (Object (action_payload "play" (Js.Num 42) (Js.Num 1))) ].

Definition watching : Server := @run sample_clock sample_env evening logged_in.

(** The administrator invites a guest, and the guest accepts. *)
Definition guest_evening : list Event :=
  [ PostLogin (Some "admin@example.com") "s3ss10n";
    PostInvitesCreate admin_request (Some "guest@example.com") "1nv1t3";
    PostInvitesAccept (Some "1nv1t3") (Some "guest@example.com") "gu3st" ].

(** A browser whose load algorithm rewinds and pauses the element and
    resets its rate. *)
Definition sample_browser : Client.Browser :=
  λ v, Client.mkVideo (Client.src v) zero one true false.

(** A viewer with an open socket, playing "movie.mp4" at rate 1, at the
    given position. *)
Definition viewer_at (t : float) : Client.State :=
  Client.mkState true false (Some "movie.mp4") 0
    (Client.mkVideo (Some "movie.mp4") t 1 false false) 0%nat [] [].


(** The state messages of the scenarios; the first read of [sample_clock]
    is 1700000000000, so their serverTime is 2000ms before it. *)
Definition playing_at_10 (video : option string) : Client.Data :=
  Client.mkData video 10 false 1 1699999998000.

Definition paused_at_10 (video : option string) : Client.Data :=
  Client.mkData video 10 true 1 1699999998000.

(** The server once the administrator has invited a guest, and the two
    attempts at accepting that invite. *)
Definition invited : Server :=
  @run sample_clock sample_env
    [PostInvitesCreate admin_request (Some "guest@example.com") "1nv1t3"] logged_in.

Definition two_acceptances : list Event :=
  [ PostInvitesAccept (Some "1nv1t3") (Some "guest@example.com") "gu3st";
    PostInvitesAccept (Some "1nv1t3") (Some "guest@example.com") "gu3st2" ].

(** The clock eight days later. *)
Definition next_week : Clock := λ n, sample_clock n + 8 * 24 * 3600 * 1000.

(** A viewer pausing, and a viewer seeking to 30s. *)
Definition pause_frame : Frame := Object (action_payload "pause" (Js.Num 50) (Js.Num 1)).

Definition seek_to_30 : Client.Action := Client.mkAction "seek" 30 1.

(** A decoder for values without escapes; it gives up on an escape. *)
Definition sample_uri : Cookies.Uri :=
  λ v, if Page.has_unit Page.percent v then None else Some v.

(** A cookie header with a stale and a fresh session cookie. *)
Definition two_sessions : string := "theme=dark;sp_session=b2xk;sp_session=bmV3=".

(** A file of the video directory. *)
Definition long_file : string := "Season 1/A long directory with a long file name in it.mkv".

(* ===================================================================== *)
(** * The vocabulary of the properties                                    *)
(* ===================================================================== *)

(** [m] keeps the invariant [I]. *)
Definition preserves {S : Type} (I : S → Prop) {A} (m : ST S A) : Prop :=
  ∀ s, I s → I (m s).2.

(** The numbers the message handler reads off a payload:
    [Number(payload.position ?? 0)] and [Number(payload.playbackRate ?? 1)]. *)
Definition read_position `{ServerEnv} (p : Payload) : float :=
  Js.Number StringToNumber (Js.nullish (payload_position p) (Js.Num zero)).
Definition read_playbackRate `{ServerEnv} (p : Payload) : float :=
  Js.Number StringToNumber (Js.nullish (payload_playbackRate p) (Js.Num one)).

(** [s] has the rooms, the sockets, the outbox and the users of [s0]. *)
Definition same_rooms (s0 s : Server) : Prop :=
  room_state s = room_state s0 ∧ socketsByRoom s = socketsByRoom s0 ∧
  outbox s = outbox s0 ∧ users s = users s0.

(** The rows of room [r] after each event of a run, oldest first. *)
Fixpoint snapshots `{Clock} `{ServerEnv} (r : string) (evs : list Event) (s : Server) : list RoomRow :=
  match evs with
  | [] => []
  | ev :: evs =>
      let s' := (handle ev s).2 in
      match room_state s' !! r with
      | Some row => row :: snapshots r evs s'
      | None => snapshots r evs s'
      end
  end.

(** Between [s0] and [s] the clock was only read forward, and the row of
    [r] is either the one of [s0] or carries a reading made in between. *)
Definition advances `{Clock} (r : string) (s0 s : Server) : Prop :=
  (tick s0 ≤ tick s)%nat ∧
  ∀ row, room_state s !! r = Some row →
    room_state s0 !! r = Some row ∨
    ∃ k, (tick s0 ≤ k < tick s)%nat ∧ updated_at row = clock k.

(** Every stamp in the table was read off the clock before now. *)
Definition stamped `{Clock} (r : string) (s : Server) : Prop :=
  ∀ row, room_state s !! r = Some row → ∃ k, (k < tick s)%nat ∧ updated_at row = clock k.

(** Every session belongs to a user whose [is_admin] is 1. *)
Definition sessions_are_admin (s : Server) : Prop :=
  ∀ token sess u,
    sessions s !! token = Some sess → users s !! user_id sess = Some u → is_admin u = 1.

(** The address a login or an acceptance is about. *)
Definition normalized `{ServerEnv} (body_email : option string) : string :=
  String_toLowerCase (String_trim (Js.coalesce body_email "")).

(** The table [upsertUser e true] leaves. *)
Definition upserted (table : gmap Z UserRow) (e : string) (now : Z) : gmap Z UserRow :=
  match select_user_by_email table e with
  | Some _ => (λ u, if String.eqb (email u) e then set_is_admin 1 u else u) <$> table
  | None => <[next_rowid table := mkUser e 1 now]> table
  end.

(** The server an acceptance reaches once the invite has passed its
    checks at [s1]: the user upserted, one use of the invite taken. *)
Definition accepted `{Clock} (token e : string) (s1 : Server) : Server :=
  set_invites (alter (λ i,
      mkInvite (invite_email i) (uses_remaining i - 1) (invite_expires_at i)
               (created_by i) (invite_created_at i)) token)
    (set_users (λ t, upserted t e (clock (tick s1))) (set_tick S s1)).

(** A frame the hub acts on: an object of type "action" whose kind is one
    of the five. *)
Definition is_accepted_action (frame : Frame) : Prop :=
  ∃ p kind, frame = Object p ∧ payload_type p = Js.Str "action" ∧
            payload_action p = Js.Str kind ∧ kind ∈ action_kinds.

(** The sockets registered for a room. *)
Definition members (r : string) (s : Server) : list Socket :=
  default [] (socketsByRoom s !! r).

(** Every registered set of sockets lists a socket once. *)
Definition socket_sets (s : Server) : Prop :=
  ∀ r l, socketsByRoom s !! r = Some l → NoDup l.

(** Every user of [s] is still there in [s'], under the same id, with the
    same address and creation stamp, and with the same flag or flag 1. *)
Definition keeps_users (s s' : Server) : Prop :=
  ∀ id u, users s !! id = Some u →
    ∃ u', users s' !! id = Some u' ∧ email u' = email u ∧
          user_created_at u' = user_created_at u ∧
          (is_admin u' = is_admin u ∨ is_admin u' = 1).

(** No two users share an address. *)
Definition emails_unique (s : Server) : Prop :=
  ∀ i j u v, users s !! i = Some u → users s !! j = Some v → email u = email v → i = j.

(** How many acceptances of the invite [t] succeed in a run. *)
Fixpoint acceptances `{Clock} `{ServerEnv} (t : string) (evs : list Event) (s : Server) : nat :=
  match evs with
  | [] => 0
  | ev :: evs =>
      (match ev with
       | PostInvitesAccept body_token body_email sessionToken =>
           if String.eqb (String_trim (Js.coalesce body_token "")) t then
             match (api_invites_accept body_token body_email sessionToken s).1 with
             | JsonOkSetCookie _ => 1
             | _ => 0
             end
           else 0
       | _ => 0
       end + acceptances t evs (handle ev s).2)%nat
  end.

(* ===================================================================== *)
(** * Stateful code, step by step                                         *)
(* ===================================================================== *)

(** Running stateful code: its result and its final state. *)
Lemma bind_run {S A B} (m : ST S A) (k : A → ST S B) (s : S) :
  bind m k s = k (m s).1 (m s).2.
Proof. unfold bind. destruct (m s); reflexivity. Qed.

(* ===================================================================== *)
(** * Properties of the store and the hub                                 *)
(* ===================================================================== *)

Section Hub.
Context `{Clock} `{ServerEnv}.

(** The room a read of the store returns is in the table afterwards, and
    the read changes nothing but (for a new room) that row and the clock. *)
Lemma getRoomState_run (r : string) (s : Server) :
  getRoomState r s =
    match room_state s !! r with
    | Some row => (row, s)
    | None =>
        let row := mkRoom None zero 1 one (clock (tick s)) in
        (row, set_room_state (insert r row) (set_tick S s))
    end.
Proof.
  unfold getRoomState. rewrite bind_run. simpl.
  destruct (room_state s !! r); reflexivity.
Qed.

Lemma getRoomState_stored (r : string) (s : Server) :
  room_state (getRoomState r s).2 !! r = Some (getRoomState r s).1.
Proof.
  rewrite getRoomState_run.
  destruct (room_state s !! r) eqn:E; simpl; [done | by rewrite lookup_insert_eq].
Qed.

Lemma getRoomState_frame (r : string) (s : Server) :
  let s1 := (getRoomState r s).2 in
  users s1 = users s ∧ sessions s1 = sessions s ∧ invites s1 = invites s ∧
  socketsByRoom s1 = socketsByRoom s ∧ outbox s1 = outbox s ∧
  (tick s ≤ tick s1)%nat.
Proof.
  rewrite getRoomState_run.
  destruct (room_state s !! r); simpl; repeat split; lia.
Qed.

Lemma updateRoomState_run (r : string) (u : Updates) (s : Server) :
  let cur := (getRoomState r s).1 in
  let s1 := (getRoomState r s).2 in
  let next := mkRoom
    (Js.coalesce_nullable (upd_video_path u) (video_path cur))
    (Js.coalesce (upd_position u) (position cur))
    (Js.coalesce (upd_paused u) (paused cur))
    (Js.coalesce (upd_playback_rate u) (playback_rate cur))
    (clock (tick s1)) in
  updateRoomState r u s =
    (next, set_room_state (insert r next) (set_tick S s1)).
Proof.
  intros cur s1 next. unfold updateRoomState.
  rewrite bind_run. fold cur s1.
  unfold bind, nowIso, Date_now, modify, ret; simpl. fold next.
  f_equal. unfold set_room_state, set_tick; simpl. f_equal.
  apply map_eq; intros k. rewrite lookup_alter.
  destruct (decide (r = k)) as [<-|Hne].
  - rewrite lookup_insert_eq. unfold s1, cur. by rewrite getRoomState_stored.
  - by rewrite lookup_insert_ne.
Qed.

(** A broadcast puts one copy of the message in the outbox for each socket
    of the room, in the order of the set. *)
Lemma send_each_run (l : list Socket) (m : StateMsg) (s : Server) :
  send_each l m s = (tt, set_outbox (λ o, o ++ ((λ ws, (ws, m)) <$> l)) s).
Proof.
  revert s; induction l as [|ws l IH]; intros s; simpl.
  - unfold ret, set_outbox. rewrite app_nil_r. by destruct s.
  - rewrite bind_run. simpl. rewrite IH. unfold set_outbox; simpl.
    by rewrite <- app_assoc.
Qed.

Lemma broadcastRoom_run (r : string) (m : StateMsg) (s : Server) :
  broadcastRoom r m s =
    (tt, set_outbox (λ o, o ++ ((λ ws, (ws, m)) <$> default [] (socketsByRoom s !! r))) s).
Proof.
  unfold broadcastRoom. rewrite bind_run. simpl.
  destruct (socketsByRoom s !! r) as [l|]; simpl.
  - apply send_each_run.
  - unfold ret, set_outbox. rewrite app_nil_r. by destruct s.
Qed.

Lemma includes_action_kinds (a : Js.Value) :
  Js.includes action_kinds a = true ↔ ∃ kind, kind ∈ action_kinds ∧ a = Js.Str kind.
Proof.
  unfold Js.includes. rewrite existsb_exists. split.
  - intros (lit & Hin & Hlit). exists lit. split; [by apply list_elem_of_In|].
    destruct a; simpl in Hlit; try discriminate.
    apply String.eqb_eq in Hlit. by subst.
  - intros (kind & Hin & ->). exists kind. split; [by apply list_elem_of_In|].
    simpl. apply String.eqb_refl.
Qed.

(** An accepted action, in one equation: the row written, the message
    built from it, and the sockets it goes to. *)
Lemma ws_message_accepted (ws : Socket) (r : string) (p : Payload) (s : Server) (kind : string) :
  payload_type p = Js.Str "action" →
  payload_action p = Js.Str kind →
  kind ∈ action_kinds →
  let cur := (getRoomState r s).1 in
  let s1 := (getRoomState r s).2 in
  let next := mkRoom
    (video_path cur)
    (if Js.isFinite (read_position p) then read_position p else position cur)
    (if String.eqb kind "pause" then 1 else if String.eqb kind "play" then 0 else paused cur)
    (if Js.isFinite (read_playbackRate p) then read_playbackRate p else playback_rate cur)
    (clock (tick s1)) in
  let msg := mkStateMsg r (video_path next) (position next) (paused next =? 1)
               (playback_rate next) (updated_at next) (clock (S (tick s1))) in
  ws_message ws r (Object p) s =
    (tt, set_outbox (λ o, o ++ ((λ w, (w, msg)) <$> default [] (socketsByRoom s !! r)))
           (set_room_state (insert r next) (set_tick (λ n, S (S n)) s1))).
Proof.
  intros Htype Haction Hkind cur s1 next msg.
  assert (Hinc : Js.includes action_kinds (payload_action p) = true).
  { apply includes_action_kinds. eauto. }
  unfold ws_message. cbv zeta. rewrite Htype, Hinc, Haction.
  fold (read_position p) (read_playbackRate p).
  change (Js.is_string "action" (Js.Str "action")) with true. cbn [Js.is_string].
  rewrite bind_run, updateRoomState_run. fold cur s1.
  cbn [upd_video_path upd_position upd_paused upd_playback_rate Js.coalesce_nullable fst snd].
  match goal with |- context [state_message r ?n] => replace n with next end.
  2: { unfold next. destruct (Js.isFinite (read_position p)), (Js.isFinite (read_playbackRate p)),
         (String.eqb kind "pause"), (String.eqb kind "play"); reflexivity. }
  assert (Hsock : socketsByRoom s1 = socketsByRoom s) by apply getRoomState_frame.
  unfold state_message, Date_now. unfold bind, ret; cbn [fst snd].
  rewrite broadcastRoom_run. cbn [socketsByRoom set_room_state set_tick tick].
  rewrite Hsock. reflexivity.
Qed.

(** C3.  An action message whose kind is none of play, pause, seek, rate,
    sync leaves the server exactly as it was: the room state (no row is
    even created), the outbox (no broadcast, no error frame) and the
    socket registry (the connection stays open); the handler returns
    normally. *)
Theorem unknown_action_kind_is_ignored (ws : Socket) (r : string) (p : Payload) (s : Server) :
  payload_type p = Js.Str "action" →
  (∀ kind, kind ∈ action_kinds → payload_action p ≠ Js.Str kind) →
  ws_message ws r (Object p) s = (tt, s).
Proof.
  intros Htype Hkind. unfold ws_message. cbv zeta. rewrite Htype.
  change (Js.is_string "action" (Js.Str "action")) with true. cbv iota.
  destruct (Js.includes action_kinds (payload_action p)) eqn:Hinc; [|reflexivity].
  apply includes_action_kinds in Hinc as (kind & Hin & Heq).
  by destruct (Hkind kind Hin).
Qed.

(** The readings that are not finite: a number that is NaN or infinite,
    and a string that does not read as a finite number.  A null or absent
    field is read as the default, a boolean as 0 or 1. *)
Lemma read_position_not_finite (p : Payload) :
  Js.isFinite (read_position p) = false ↔
  match payload_position p with
  | Js.Num x => Js.isFinite x = false
  | Js.Str s => Js.isFinite (StringToNumber s) = false
  | _ => False
  end.
Proof.
  unfold read_position. destruct (payload_position p) as [| |[]| |]; simpl; try reflexivity;
    split; try done; vm_compute; discriminate.
Qed.

Lemma read_playbackRate_not_finite (p : Payload) :
  Js.isFinite (read_playbackRate p) = false ↔
  match payload_playbackRate p with
  | Js.Num x => Js.isFinite x = false
  | Js.Str s => Js.isFinite (StringToNumber s) = false
  | _ => False
  end.
Proof.
  unfold read_playbackRate. destruct (payload_playbackRate p) as [| |[]| |]; simpl;
    try reflexivity; split; try done; vm_compute; discriminate.
Qed.


(** The store by itself keeps what an update leaves out. *)
Lemma updateRoomState_absent_fields (r : string) (u : Updates) (s : Server) :
  let prior := (getRoomState r s).1 in
  let next := (updateRoomState r u s).1 in
  (upd_position u = None → position next = position prior) ∧
  (upd_playback_rate u = None → playback_rate next = playback_rate prior) ∧
  (upd_paused u = None → paused next = paused prior) ∧
  (upd_video_path u = None → video_path next = video_path prior).
Proof.
  intros prior next. subst next. rewrite updateRoomState_run. fold prior. cbn [fst].
  cbn [position playback_rate paused video_path].
  repeat split; by intros ->.
Qed.

(** C5, as the code has it.  An accepted action that omits [position] is
    read as position 0, and the room is set to 0; one that omits
    [playbackRate] is read as rate 1, and the room is set to 1.  Only the
    store keeps the prior value of a field an update leaves out. *)
Theorem omitted_field_takes_default
    (ws : Socket) (r : string) (p : Payload) (s : Server) (kind : string) :
  payload_type p = Js.Str "action" →
  payload_action p = Js.Str kind →
  kind ∈ action_kinds →
  let s' := (ws_message ws r (Object p) s).2 in
  ∃ next,
    room_state s' !! r = Some next ∧
    (payload_position p = Js.Undefined → position next = zero) ∧
    (payload_playbackRate p = Js.Undefined → playback_rate next = one) ∧
    (∀ u, upd_position u = None → upd_playback_rate u = None →
       position (updateRoomState r u s).1 = position (getRoomState r s).1 ∧
       playback_rate (updateRoomState r u s).1 = playback_rate (getRoomState r s).1).
Proof.
  intros Htype Haction Hkind s'. subst s'.
  rewrite (ws_message_accepted ws r p s kind Htype Haction Hkind).
  cbn [snd]. eexists. split.
  { cbn [room_state set_outbox set_room_state]. apply lookup_insert_eq. }
  cbn [position playback_rate]. split; [|split].
  - intros Hp. unfold read_position. rewrite Hp. reflexivity.
  - intros Hp. unfold read_playbackRate. rewrite Hp. reflexivity.
  - intros u Hpos Hrate.
    destruct (updateRoomState_absent_fields r u s) as (H1 & H2 & _). auto.
Qed.

(** C8.  A sync action carrying the room's current (finite) position and
    playback rate writes back a row equal to the current one in every
    field but [updated_at]. *)
Theorem sync_with_current_state_is_idempotent
    (ws : Socket) (r : string) (p : Payload) (s : Server) (row : RoomRow) :
  room_state s !! r = Some row →
  payload_type p = Js.Str "action" →
  payload_action p = Js.Str "sync" →
  payload_position p = Js.Num (position row) →
  payload_playbackRate p = Js.Num (playback_rate row) →
  Js.isFinite (position row) = true →
  Js.isFinite (playback_rate row) = true →
  let s' := (ws_message ws r (Object p) s).2 in
  ∃ next,
    room_state s' !! r = Some next ∧
    next = mkRoom (video_path row) (position row) (paused row) (playback_rate row)
             (updated_at next).
Proof.
  intros Hrow Htype Haction Hpos Hrate Hfp Hfr s'. subst s'.
  assert (Hkind : "sync" ∈ action_kinds) by (unfold action_kinds; set_solver).
  rewrite (ws_message_accepted ws r p s "sync" Htype Haction Hkind).
  cbn [snd]. eexists. split.
  { cbn [room_state set_outbox set_room_state]. apply lookup_insert_eq. }
  rewrite getRoomState_run, Hrow. cbn [fst snd updated_at].
  unfold read_position, read_playbackRate. rewrite Hpos, Hrate.
  cbn [Js.nullish Js.Number]. rewrite Hfp, Hfr. reflexivity.
Qed.

End Hub.

(* ===================================================================== *)
(** * Invariants of stateful code                                         *)
(* ===================================================================== *)

Section Preserves.
Context {S : Type} (I : S → Prop).

Lemma preserves_ret {A} (a : A) : preserves I (ret a).
Proof. intros s Hs. exact Hs. Qed.

Lemma preserves_gets {A} (f : S → A) : preserves I (gets f).
Proof. intros s Hs. exact Hs. Qed.

Lemma preserves_modify (f : S → S) : (∀ s, I s → I (f s)) → preserves I (modify f).
Proof. intros Hf s Hs. by apply Hf. Qed.

Lemma preserves_bind {A B} (m : ST S A) (k : A → ST S B) :
  preserves I m → (∀ a, preserves I (k a)) → preserves I (bind m k).
Proof.
  intros Hm Hk s Hs. unfold bind. specialize (Hm s Hs).
  destruct (m s) as [a s1]. by apply Hk.
Qed.

End Preserves.

(** Walks through the binds and the case distinctions of a handler, and
    hands the primitive steps to [leaf]. *)
Ltac preserves_with leaf :=
  repeat first
    [ progress leaf
    | apply preserves_ret
    | apply preserves_gets
    | apply preserves_bind; [|intros]
    | match goal with
      | |- preserves _ (match ?x with _ => _ end) => destruct x
      end ].

(** The handlers, opened down to the store, the clock and the tables. *)
Ltac open_handlers :=
  unfold api_me, api_videos, api_room_state, api_room_set_video, api_auth_login,
    api_auth_logout, api_invites_create, api_invites_accept, api_invites,
    ws_connect, ws_message, ws_open, ws_close, cli_invite, open_session,
    insert_session, insert_invite, requireAdmin, requireAuth, getSession,
    upsertUser, state_message, ensureRoomSockets, broadcastRoom, send, nowIso;
  cbv zeta.

Section Frames.
Context `{Clock} `{ServerEnv}.

Lemma requireAdmin_same_rooms (request : Request) (s0 : Server) :
  preserves (same_rooms s0) (requireAdmin request).
Proof.
  open_handlers.
  preserves_with ltac:(first
    [ apply preserves_modify; intros ? ?; assumption
    | by intros [] ? ]).
Qed.

(** An authorised set-video request, in one equation. *)
Lemma api_room_set_video_run
    (request : Request) (body : SetVideoBody) (s s1 : Server) (session : Session) :
  requireAdmin request s = (AuthOk session, s1) →
  let r := Js.coalesce (body_roomId body) "main" in
  let prior := (getRoomState r s1).1 in
  let s2 := (getRoomState r s1).2 in
  let next := mkRoom (Js.coalesce_nullable (body_videoPath body) (video_path prior))
                zero 1 (playback_rate prior) (clock (tick s2)) in
  let msg := mkStateMsg r (video_path next) zero true (playback_rate prior)
               (clock (tick s2)) (clock (S (tick s2))) in
  api_room_set_video request body s =
    (JsonOk, set_outbox (λ o, o ++ ((λ w, (w, msg)) <$> default [] (socketsByRoom s !! r)))
               (set_room_state (insert r next) (set_tick (λ n, S (S n)) s2))).
Proof.
  intros Hauth r prior s2 next msg.
  assert (Hsame : same_rooms s s1).
  { pose proof (requireAdmin_same_rooms request s s) as Hp.
    rewrite Hauth in Hp. apply Hp. by repeat split. }
  unfold api_room_set_video. rewrite bind_run, Hauth. cbn [fst snd]. cbv zeta.
  fold r. rewrite bind_run, updateRoomState_run. fold prior s2. cbn [fst snd].
  cbn [upd_video_path upd_position upd_paused upd_playback_rate Js.coalesce].
  match goal with |- context [state_message r ?n] => replace n with next end.
  2: { unfold next. by destruct (body_videoPath body) as [[?|]|]. }
  unfold state_message, Date_now. unfold bind, ret; cbn [fst snd].
  rewrite broadcastRoom_run. cbn [socketsByRoom set_room_state set_tick tick fst snd].
  assert (Hsock : socketsByRoom s2 = socketsByRoom s).
  { unfold s2. destruct (getRoomState_frame r s1) as (_ & _ & _ & -> & _).
    apply Hsame. }
  rewrite Hsock. reflexivity.
Qed.

(** C2.  An authorised set-video request with a video path [v] leaves the
    room with that path, position 0 and paused, whatever the room held
    before (also when the room did not exist), and the new state goes to
    every socket of the room. *)
Theorem set_video_resets_playback
    (request : Request) (body : SetVideoBody) (s s1 : Server) (session : Session) (v : string) :
  requireAdmin request s = (AuthOk session, s1) →
  body_videoPath body = Some (Some v) →
  let r := Js.coalesce (body_roomId body) "main" in
  let s' := (api_room_set_video request body s).2 in
  (api_room_set_video request body s).1 = JsonOk ∧
  ∃ next,
    room_state s' !! r = Some next ∧
    video_path next = Some v ∧ position next = zero ∧ paused next = 1 ∧
    ∃ t, outbox s' = outbox s ++
           ((λ w, (w, mkStateMsg r (Some v) zero true (playback_rate next) (updated_at next) t))
              <$> default [] (socketsByRoom s !! r)).
Proof.
  intros Hauth Hv r s'. subst s'.
  rewrite (api_room_set_video_run request body s s1 session Hauth).
  fold r. rewrite Hv. cbn [fst snd Js.coalesce_nullable]. split; [reflexivity|].
  eexists. split.
  { cbn [room_state set_outbox set_room_state]. apply lookup_insert_eq. }
  cbn [video_path position paused playback_rate updated_at].
  repeat (split; [reflexivity|]).
  eexists. cbn [outbox set_outbox set_room_state set_tick]. f_equal.
  destruct (getRoomState_frame r s1) as (_ & _ & _ & _ & -> & _).
  pose proof (requireAdmin_same_rooms request s s) as Hp.
  rewrite Hauth in Hp. apply Hp. by repeat split.
Qed.

(** An authorised set-video request whose video path is null keeps the
    video the room had: the null falls through the [??] of
    [updateRoomState].  Position and pause are reset all the same. *)
Lemma set_video_null_keeps_video
    (request : Request) (body : SetVideoBody) (s s1 : Server) (session : Session) (row : RoomRow) :
  requireAdmin request s = (AuthOk session, s1) →
  body_videoPath body = Some None →
  let r := Js.coalesce (body_roomId body) "main" in
  room_state s !! r = Some row →
  let s' := (api_room_set_video request body s).2 in
  ∃ next,
    room_state s' !! r = Some next ∧
    video_path next = video_path row ∧ position next = zero ∧ paused next = 1.
Proof.
  intros Hauth Hv r Hrow s'. subst s'.
  rewrite (api_room_set_video_run request body s s1 session Hauth).
  fold r. rewrite Hv. cbn [fst snd Js.coalesce_nullable].
  eexists. split.
  { cbn [room_state set_outbox set_room_state]. apply lookup_insert_eq. }
  cbn [video_path position paused]. repeat split.
  assert (Hrooms : room_state s1 = room_state s).
  { pose proof (requireAdmin_same_rooms request s s) as Hp.
    rewrite Hauth in Hp. apply Hp. by repeat split. }
  rewrite getRoomState_run, Hrooms, Hrow. reflexivity.
Qed.

End Frames.

(* ===================================================================== *)
(** * Time stamps of a room                                               *)
(* ===================================================================== *)

Section Stamps.
Context `{Clock} `{ServerEnv}.
Variable r : string.

Lemma advances_refl (s : Server) : advances r s s.
Proof. split; [lia|]. intros row Hrow. by left. Qed.

Lemma Date_now_advances (s0 : Server) : preserves (advances r s0) Date_now.
Proof.
  intros s [Ht Hr]. split; simpl; [lia|].
  intros row Hrow. destruct (Hr row Hrow) as [?|(k & ? & ?)]; [by left|].
  right. exists k. split; [lia | done].
Qed.

Lemma getRoomState_advances (s0 : Server) (r0 : string) :
  preserves (advances r s0) (getRoomState r0).
Proof.
  intros s [Ht Hr]. rewrite getRoomState_run.
  destruct (room_state s !! r0) eqn:E; [by split|].
  split; simpl; [lia|]. intros row.
  destruct (decide (r0 = r)) as [->|Hne].
  - rewrite lookup_insert_eq. intros [= <-]. right. exists (tick s). simpl. split; [lia|done].
  - rewrite lookup_insert_ne by done. intros Hrow.
    destruct (Hr row Hrow) as [?|(k & ? & ?)]; [by left|].
    right. exists k. split; [lia | done].
Qed.

Lemma updateRoomState_advances (s0 : Server) (r0 : string) (u : Updates) :
  preserves (advances r s0) (updateRoomState r0 u).
Proof.
  intros s Hs. rewrite updateRoomState_run.
  destruct (getRoomState_advances s0 r0 s Hs) as [Ht Hr].
  set (s1 := (getRoomState r0 s).2) in *.
  split; simpl; [lia|]. intros row.
  destruct (decide (r0 = r)) as [->|Hne].
  - rewrite lookup_insert_eq. intros [= <-]. right. exists (tick s1). simpl. split; [lia|done].
  - rewrite lookup_insert_ne by done. intros Hrow.
    destruct (Hr row Hrow) as [?|(k & ? & ?)]; [by left|].
    right. exists k. split; [lia | done].
Qed.

Lemma send_each_advances (s0 : Server) (l : list Socket) (m : StateMsg) :
  preserves (advances r s0) (send_each l m).
Proof. intros s Hs. rewrite send_each_run. exact Hs. Qed.

(** No handler moves a time stamp of the room backwards. *)
Lemma handle_advances (s0 : Server) (ev : Event) : preserves (advances r s0) (handle ev).
Proof.
  destruct ev; unfold handle; open_handlers;
    preserves_with ltac:(first
      [ apply Date_now_advances
      | apply getRoomState_advances
      | apply updateRoomState_advances
      | apply send_each_advances
      | apply preserves_modify; intros ? Hs; exact Hs ]).
Qed.

Hypothesis clock_monotone : ∀ i j : nat, (i ≤ j)%nat → clock i ≤ clock j.

Lemma handle_stamped (ev : Event) (s : Server) : stamped r s → stamped r (handle ev s).2.
Proof.
  intros Hs row Hrow.
  destruct (handle_advances s ev s (advances_refl s)) as [Ht Hr].
  destruct (Hr row Hrow) as [Hold|(k & ? & ?)].
  - destruct (Hs row Hold) as (k & ? & ?). exists k. split; [lia|done].
  - exists k. split; [lia|done].
Qed.

Lemma snapshots_bounded (evs : list Event) (s : Server) (lo : Z) :
  (∀ row, room_state s !! r = Some row → lo ≤ updated_at row) →
  (∀ n, (tick s ≤ n)%nat → lo ≤ clock n) →
  Forall (λ row, lo ≤ updated_at row) (snapshots r evs s).
Proof.
  revert s. induction evs as [|ev evs IH]; intros s Hrows Hclock; simpl; [constructor|].
  destruct (handle_advances s ev s (advances_refl s)) as [Ht Hr].
  set (s' := (handle ev s).2) in *.
  assert (Hrows' : ∀ row, room_state s' !! r = Some row → lo ≤ updated_at row).
  { intros row Hrow. destruct (Hr row Hrow) as [Hold|(k & Hk & ->)]; [by apply Hrows|].
    apply Hclock. lia. }
  assert (Hclock' : ∀ n, (tick s' ≤ n)%nat → lo ≤ clock n).
  { intros n Hn. apply Hclock. lia. }
  destruct (room_state s' !! r) as [row|] eqn:E.
  - constructor; [by apply Hrows'|]. apply IH; [|done]. by rewrite E.
  - apply IH; [|done]. by rewrite E.
Qed.

Lemma snapshots_sorted (evs : list Event) (s : Server) :
  stamped r s →
  StronglySorted (λ a b, updated_at a ≤ updated_at b) (snapshots r evs s).
Proof.
  revert s. induction evs as [|ev evs IH]; intros s Hs; simpl; [constructor|].
  pose proof (handle_stamped ev s Hs) as Hs'.
  set (s' := (handle ev s).2) in *.
  destruct (room_state s' !! r) as [row|] eqn:E; [|by apply IH].
  constructor; [by apply IH|].
  apply snapshots_bounded.
  - intros row' Hrow'. rewrite E in Hrow'. injection Hrow' as <-. lia.
  - intros n Hn. destruct (Hs' row E) as (k & Hk & ->). apply clock_monotone. lia.
Qed.

(** C7.  On a clock that never goes back, the rows of a room that did not
    exist before a run (it is created with the default state on first
    access) carry non-decreasing [updated_at] stamps, whatever the events of
    the run: valid actions, other frames, requests.  And every update of
    the store stamps the row with a reading of the clock made during the
    update. *)
Theorem updated_at_is_non_decreasing (evs : list Event) (s : Server) :
  room_state s !! r = None →
  StronglySorted (λ a b, updated_at a ≤ updated_at b) (snapshots r evs s) ∧
  ∀ (r0 : string) (u : Updates) (s0 : Server),
    ∃ k, (tick s0 ≤ k < tick (updateRoomState r0 u s0).2)%nat ∧
         updated_at (updateRoomState r0 u s0).1 = clock k ∧
         room_state (updateRoomState r0 u s0).2 !! r0 = Some (updateRoomState r0 u s0).1.
Proof.
  intros Hfresh. split.
  - apply snapshots_sorted. intros row Hrow. congruence.
  - intros r0 u s0. rewrite updateRoomState_run. cbn [fst snd updated_at].
    exists (tick (getRoomState r0 s0).2). split; [|split; [done|]].
    + destruct (getRoomState_frame r0 s0) as (_ & _ & _ & _ & _ & Ht). simpl. lia.
    + simpl. apply lookup_insert_eq.
Qed.

End Stamps.

(* ===================================================================== *)
(** * Privileges                                                          *)
(* ===================================================================== *)

Section Privileges.
Context `{Clock} `{ServerEnv}.

Lemma select_user_by_email_Some (table : gmap Z UserRow) (e : string) (id : Z) (u : UserRow) :
  select_user_by_email table e = Some (id, u) → table !! id = Some u ∧ email u = e.
Proof.
  unfold select_user_by_email. intros Hfind.
  apply find_some in Hfind as [Hin Heq]. simpl in Heq.
  apply list_elem_of_In, elem_of_map_to_list in Hin.
  split; [done|]. by apply String.eqb_eq.
Qed.

Lemma select_user_by_email_None (table : gmap Z UserRow) (e : string) (id : Z) (u : UserRow) :
  select_user_by_email table e = None → table !! id = Some u → email u ≠ e.
Proof.
  unfold select_user_by_email. intros Hfind Hrow Heq.
  pose proof (find_none _ _ Hfind (id, u)) as Hno. simpl in Hno.
  rewrite (proj2 (String.eqb_eq _ _) Heq) in Hno.
  discriminate Hno. by apply list_elem_of_In, elem_of_map_to_list.
Qed.

(** A change of the user table that only raises flags keeps sessions with
    administrators. *)
Lemma set_users_raises (f : gmap Z UserRow → gmap Z UserRow) (s : Server) :
  (∀ id u', f (users s) !! id = Some u' → is_admin u' = 1 ∨ users s !! id = Some u') →
  sessions_are_admin s → sessions_are_admin (set_users f s).
Proof.
  intros Hf Hs token sess u' Hsess Hu. simpl in *.
  destruct (Hf _ _ Hu) as [?|Hold]; [done|]. by apply (Hs token sess u').
Qed.

Lemma alter_is_admin_raises (table : gmap Z UserRow) (id0 id : Z) (u' : UserRow) :
  alter (set_is_admin 1) id0 table !! id = Some u' →
  is_admin u' = 1 ∨ table !! id = Some u'.
Proof.
  rewrite lookup_alter. destruct (decide (id0 = id)) as [->|Hne]; [|by right].
  destruct (table !! id); simpl; [|done]. intros [= <-]. by left.
Qed.

Lemma upsertUser_run (e : string) (s : Server) :
  upsertUser e true s = (tt, set_users (λ t, upserted t e (clock (tick s))) (set_tick S s)).
Proof. reflexivity. Qed.

Lemma upserted_raises (table : gmap Z UserRow) (e : string) (now : Z) (id : Z) (u' : UserRow) :
  upserted table e now !! id = Some u' →
  is_admin u' = 1 ∨ table !! id = Some u'.
Proof.
  unfold upserted. destruct (select_user_by_email table e).
  - rewrite lookup_fmap. destruct (table !! id) as [u|]; simpl; [|done].
    intros [= <-]. destruct (String.eqb (email u) e); [by left | by right].
  - rewrite lookup_insert. destruct (decide (next_rowid table = id)); [|by right].
    intros [= <-]. by left.
Qed.

(** After the upsert, whoever carries the address is an administrator, and
    somebody does. *)
Lemma upserted_admin (table : gmap Z UserRow) (e : string) (now : Z) (id : Z) (u' : UserRow) :
  upserted table e now !! id = Some u' → email u' = e → is_admin u' = 1.
Proof.
  unfold upserted. destruct (select_user_by_email table e) eqn:E.
  - rewrite lookup_fmap. destruct (table !! id) as [u|]; simpl; [|done].
    intros [= <-]. destruct (String.eqb (email u) e) eqn:Ee; [done|].
    simpl. intros He. apply String.eqb_eq in He. congruence.
  - rewrite lookup_insert. destruct (decide (next_rowid table = id)).
    + by intros [= <-].
    + intros Hrow He. by destruct (select_user_by_email_None table e id u' E Hrow).
Qed.

Lemma upsertUser_preserves (e : string) : preserves sessions_are_admin (upsertUser e true).
Proof.
  intros s Hs. rewrite upsertUser_run. cbn [snd].
  apply (set_users_raises _ (set_tick S s)); [|exact Hs].
  intros id u'. apply upserted_raises.
Qed.

(** What [open_session] does with the session table. *)
Lemma open_session_run (id : Z) (sessionToken : string) (s : Server) :
  open_session id sessionToken s =
    match sessions s !! sessionToken with
    | Some _ => (Uncaught, set_tick (λ n, S (S n)) s)
    | None =>
        (JsonOkSetCookie sessionToken,
         set_sessions (insert sessionToken
           (mkSessionRow id (clock (tick s) + SESSION_TTL_HOURS * 3600 * 1000) (clock (S (tick s)))))
           (set_tick (λ n, S (S n)) s))
    end.
Proof.
  unfold open_session, insert_session, nowIso, Date_now. unfold bind, gets, ret, modify.
  cbn [fst snd sessions set_tick]. by destruct (sessions s !! sessionToken).
Qed.

Lemma open_session_preserves (id : Z) (sessionToken : string) (s : Server) :
  (∀ u, users s !! id = Some u → is_admin u = 1) →
  sessions_are_admin s → sessions_are_admin (open_session id sessionToken s).2.
Proof.
  intros Hid Hs. rewrite open_session_run.
  destruct (sessions s !! sessionToken) eqn:E; [exact Hs|].
  intros token sess u. cbn [snd sessions users set_sessions set_tick].
  rewrite lookup_insert. destruct (decide (sessionToken = token)).
  - intros [= <-]. simpl. apply Hid.
  - apply Hs.
Qed.

(** POST /api/auth/login, in one equation. *)
Lemma api_auth_login_run (body_email : option string) (sessionToken : string) (s : Server) :
  api_auth_login body_email sessionToken s =
    if String.eqb (normalized body_email) "" then (JsonError 400 "Email required", s)
    else match select_user_by_email (users s) (normalized body_email) with
         | None => (JsonError 403 "Email not invited", s)
         | Some (id, _) =>
             open_session id sessionToken (set_users (alter (set_is_admin 1) id) s)
         end.
Proof.
  unfold api_auth_login. cbv zeta. fold (normalized body_email).
  destruct (String.eqb (normalized body_email) ""); [reflexivity|].
  unfold bind, gets, modify. cbn [fst snd].
  by destruct (select_user_by_email (users s) (normalized body_email)) as [[id u]|].
Qed.

Lemma api_auth_login_preserves (body_email : option string) (sessionToken : string) :
  preserves sessions_are_admin (api_auth_login body_email sessionToken).
Proof.
  intros s Hs. rewrite api_auth_login_run.
  destruct (String.eqb (normalized body_email) ""); [exact Hs|].
  destruct (select_user_by_email (users s) (normalized body_email)) as [[id u0]|]; [|exact Hs].
  apply open_session_preserves.
  - cbn [users set_users]. intros u. rewrite lookup_alter_eq.
    destruct (users s !! id); simpl; [|done]. by intros [= <-].
  - apply set_users_raises; [|exact Hs]. intros id' u'. apply alter_is_admin_raises.
Qed.

(** POST /api/invites/accept, in one equation. *)
Lemma api_invites_accept_run
    (body_token body_email : option string) (sessionToken : string) (s : Server) :
  let token := String_trim (Js.coalesce body_token "") in
  let e := normalized body_email in
  api_invites_accept body_token body_email sessionToken s =
    if String.eqb token "" || String.eqb e "" then (JsonError 400 "Token and email required", s)
    else match invites s !! token with
    | None => (JsonError 404 "Invalid invite", s)
    | Some invite =>
        if Js.truthy_str (invite_email invite)
           && negb (bool_decide (invite_email invite = Some e))
        then (JsonError 403 "Invite is for a different email", s)
        else
          let expired := match invite_expires_at invite with
                         | Some t => t <? clock (tick s)
                         | None => false
                         end in
          let s1 := match invite_expires_at invite with
                    | Some _ => set_tick S s
                    | None => s
                    end in
          if expired then (JsonError 403 "Invite expired", s1)
          else if uses_remaining invite <=? 0 then (JsonError 403 "Invite used up", s1)
          else match select_user_by_email (users (accepted token e s1)) e with
               | None => (JsonError 403 "Email not invited", accepted token e s1)
               | Some (id, _) => open_session id sessionToken (accepted token e s1)
               end
    end.
Proof.
  intros token e. unfold api_invites_accept. cbv zeta.
  fold (normalized body_email). fold token e.
  destruct (String.eqb token "" || String.eqb e ""); [reflexivity|].
  rewrite bind_run. cbn [gets fst snd].
  destruct (invites s !! token) as [invite|]; [|reflexivity].
  destruct (Js.truthy_str (invite_email invite)
            && negb (bool_decide (invite_email invite = Some e))); [reflexivity|].
  rewrite bind_run.
  destruct (invite_expires_at invite) as [t|].
  - unfold Date_now at 1 2. unfold bind at 1 2. cbn [ret fst snd].
    destruct (t <? clock (tick s)); [reflexivity|].
    destruct (uses_remaining invite <=? 0); [reflexivity|].
    rewrite bind_run, upsertUser_run. unfold bind, modify, gets. cbn [fst snd].
    fold (accepted token e (set_tick S s)).
    by destruct (select_user_by_email _ e) as [[id u]|].
  - cbn [ret fst snd].
    destruct (uses_remaining invite <=? 0); [reflexivity|].
    rewrite bind_run, upsertUser_run. unfold bind, modify, gets. cbn [fst snd].
    fold (accepted token e s).
    by destruct (select_user_by_email _ e) as [[id u]|].
Qed.

Lemma accepted_preserves (token e : string) (s1 : Server) :
  sessions_are_admin s1 → sessions_are_admin (accepted token e s1).
Proof.
  intros Hs. unfold accepted.
  change (sessions_are_admin (set_users (λ t, upserted t e (clock (tick s1))) (set_tick S s1))).
  apply (set_users_raises _ (set_tick S s1)); [|exact Hs].
  intros id u'. apply upserted_raises.
Qed.

Lemma api_invites_accept_preserves
    (body_token body_email : option string) (sessionToken : string) :
  preserves sessions_are_admin (api_invites_accept body_token body_email sessionToken).
Proof.
  intros s Hs. rewrite api_invites_accept_run. cbv zeta.
  set (token := String_trim (Js.coalesce body_token "")).
  set (e := normalized body_email).
  destruct (String.eqb token "" || String.eqb e ""); [exact Hs|].
  destruct (invites s !! token) as [invite|]; [|exact Hs].
  destruct (Js.truthy_str (invite_email invite)
            && negb (bool_decide (invite_email invite = Some e))); [exact Hs|].
  set (s1 := match invite_expires_at invite with Some _ => set_tick S s | None => s end).
  assert (Hs1 : sessions_are_admin s1) by (unfold s1; by destruct (invite_expires_at invite)).
  destruct (match invite_expires_at invite with Some t => t <? clock (tick s) | None => false end);
    [exact Hs1|].
  destruct (uses_remaining invite <=? 0); [exact Hs1|].
  destruct (select_user_by_email (users (accepted token e s1)) e) as [[id u]|] eqn:E.
  - apply open_session_preserves; [|by apply accepted_preserves].
    apply select_user_by_email_Some in E as [Hrow He].
    intros u' Hu'. cbn [users accepted set_invites set_users] in Hu', Hrow.
    eapply upserted_admin; [exact Hu'|]. congruence.
  - by apply accepted_preserves.
Qed.

(** The handlers but login and acceptance, opened down to the store, the
    clock and the tables. *)
Ltac open_other_handlers :=
  unfold api_me, api_videos, api_room_state, api_room_set_video,
    api_auth_logout, api_invites_create, api_invites,
    ws_connect, ws_message, ws_open, ws_close, cli_invite,
    insert_invite, requireAdmin, requireAuth, getSession,
    state_message, ensureRoomSockets, broadcastRoom, send, nowIso;
  cbv zeta.

Lemma getRoomState_preserves (r : string) : preserves sessions_are_admin (getRoomState r).
Proof.
  intros s Hs token sess u.
  destruct (getRoomState_frame r s) as (-> & -> & _). apply Hs.
Qed.

Lemma updateRoomState_preserves (r : string) (u : Updates) :
  preserves sessions_are_admin (updateRoomState r u).
Proof.
  intros s Hs. rewrite updateRoomState_run. cbn [snd].
  exact (getRoomState_preserves r s Hs).
Qed.

(** No handler leaves a session with a user who is not an administrator. *)
Lemma handle_preserves (ev : Event) : preserves sessions_are_admin (handle ev).
Proof.
  destruct ev; unfold handle; open_other_handlers;
    preserves_with ltac:(first
      [ apply api_auth_login_preserves
      | apply api_invites_accept_preserves
      | apply getRoomState_preserves
      | apply updateRoomState_preserves
      | intros ? Hs; rewrite send_each_run; exact Hs
      | intros ? Hs; exact Hs
      | apply preserves_modify; intros ? Hs; exact Hs
      | apply preserves_modify; intros ? Hs ? ? ?; cbn [sessions users set_sessions];
        rewrite lookup_delete_Some; intros [_ ?]; by eapply Hs
      | apply preserves_modify; intros ? Hs ? ? ?; cbn [sessions users set_sessions];
        rewrite map_lookup_filter_Some; intros [? _]; by eapply Hs ]).
Qed.

Lemma run_preserves (evs : list Event) (s : Server) :
  sessions_are_admin s → sessions_are_admin (run evs s).
Proof.
  revert s. induction evs as [|ev evs IH]; intros s Hs; [exact Hs|].
  apply IH. by apply handle_preserves.
Qed.

(** A session that is found belongs to an administrator. *)
Lemma getSession_isAdmin (request : Request) (s : Server) (session : Session) :
  sessions_are_admin s → (getSession request s).1 = Some session → isAdmin session = true.
Proof.
  intros Hs. unfold getSession.
  destruct (cookie_sp_session request) as [token|]; [|discriminate].
  destruct (String.eqb token ""); [discriminate|].
  rewrite bind_run. cbn [gets fst snd].
  destruct (sessions s !! token) as [sess|] eqn:Esess; [|discriminate].
  destruct (users s !! user_id sess) as [u|] eqn:Eu; [|discriminate].
  unfold Date_now, bind. cbn [fst snd].
  destruct (expires_at sess <? clock (tick s)); [discriminate|].
  cbn [ret fst]. intros [= <-]. cbn [isAdmin].
  rewrite (Hs token sess u Esess Eu). reflexivity.
Qed.

Lemma requireAuth_ok (request : Request) (s : Server) (session : Session) :
  (requireAuth request s).1 = AuthOk session ↔ (getSession request s).1 = Some session.
Proof.
  unfold requireAuth. rewrite bind_run.
  destruct (getSession request s).1; cbn [ret fst]; split; congruence.
Qed.

Lemma login_sets_is_admin
    (body_email : option string) (sessionToken c : string) (s s' : Server) :
  api_auth_login body_email sessionToken s = (JsonOkSetCookie c, s') →
  ∃ id u, select_user_by_email (users s) (normalized body_email) = Some (id, u) ∧
          users s' !! id = Some (set_is_admin 1 u) ∧
          ∃ sess, sessions s' !! c = Some sess ∧ user_id sess = id.
Proof.
  rewrite api_auth_login_run.
  destruct (String.eqb (normalized body_email) ""); [discriminate|].
  destruct (select_user_by_email (users s) (normalized body_email)) as [[id u]|] eqn:E;
    [|discriminate].
  rewrite open_session_run. cbn [sessions set_users].
  destruct (sessions s !! sessionToken); [discriminate|].
  intros [= <- <-]. exists id, u. split; [done|].
  apply select_user_by_email_Some in E as [Hrow _].
  cbn [users sessions set_sessions set_users set_tick]. split.
  - by rewrite lookup_alter_eq, Hrow.
  - eexists. by rewrite lookup_insert_eq.
Qed.

Lemma accept_sets_is_admin
    (body_token body_email : option string) (sessionToken c : string) (s s' : Server) :
  api_invites_accept body_token body_email sessionToken s = (JsonOkSetCookie c, s') →
  ∃ id u, users s' !! id = Some u ∧ email u = normalized body_email ∧ is_admin u = 1 ∧
          ∃ sess, sessions s' !! c = Some sess ∧ user_id sess = id.
Proof.
  rewrite api_invites_accept_run. cbv zeta.
  set (token := String_trim (Js.coalesce body_token "")).
  set (e := normalized body_email).
  destruct (String.eqb token "" || String.eqb e ""); [discriminate|].
  destruct (invites s !! token) as [invite|]; [|discriminate].
  destruct (Js.truthy_str (invite_email invite)
            && negb (bool_decide (invite_email invite = Some e))); [discriminate|].
  set (s1 := match invite_expires_at invite with Some _ => set_tick S s | None => s end).
  destruct (match invite_expires_at invite with Some t => t <? clock (tick s) | None => false end);
    [discriminate|].
  destruct (uses_remaining invite <=? 0); [discriminate|].
  destruct (select_user_by_email (users (accepted token e s1)) e) as [[id u]|] eqn:E;
    [|discriminate].
  rewrite open_session_run.
  destruct (sessions (accepted token e s1) !! sessionToken); [discriminate|].
  intros [= <- <-]. exists id, u.
  apply select_user_by_email_Some in E as [Hrow He].
  cbn [users sessions set_sessions set_tick]. split; [done|]. split; [done|]. split.
  - cbn [users accepted set_invites set_users] in Hrow. by eapply upserted_admin.
  - eexists. by rewrite lookup_insert_eq.
Qed.

(** C10.  A successful login sets [is_admin] of the user it finds to 1; a
    successful invite acceptance leaves a user with the address and
    [is_admin] 1; each opens its session for that user.  So, on a server
    whose sessions belong to administrators to begin with (one without
    sessions, say), after any run of events every request that passes
    [requireAuth] passes [requireAdmin] as well, and its set-video request
    is carried out. *)
Theorem every_authenticated_user_is_admin :
  (∀ body_email sessionToken c s s',
     api_auth_login body_email sessionToken s = (JsonOkSetCookie c, s') →
     ∃ id u, select_user_by_email (users s) (normalized body_email) = Some (id, u) ∧
             users s' !! id = Some (set_is_admin 1 u) ∧
             ∃ sess, sessions s' !! c = Some sess ∧ user_id sess = id) ∧
  (∀ body_token body_email sessionToken c s s',
     api_invites_accept body_token body_email sessionToken s = (JsonOkSetCookie c, s') →
     ∃ id u, users s' !! id = Some u ∧ email u = normalized body_email ∧ is_admin u = 1 ∧
             ∃ sess, sessions s' !! c = Some sess ∧ user_id sess = id) ∧
  (∀ s0 evs request session,
     sessions_are_admin s0 →
     (requireAuth request (run evs s0)).1 = AuthOk session →
     (requireAdmin request (run evs s0)).1 = AuthOk session ∧
     ∀ body, (api_room_set_video request body (run evs s0)).1 = JsonOk).
Proof.
  split; [|split].
  - intros. by eapply login_sets_is_admin.
  - intros. by eapply accept_sets_is_admin.
  - intros s0 evs request session Hs0 Hauth.
    pose proof (run_preserves evs s0 Hs0) as Hs.
    assert (Hadmin : isAdmin session = true).
    { apply requireAuth_ok in Hauth. by eapply getSession_isAdmin. }
    assert (Hpass : (requireAdmin request (run evs s0)).1 = AuthOk session).
    { unfold requireAdmin. rewrite bind_run.
      destruct (requireAuth request (run evs s0)) as [auth s1]. cbn [fst snd] in *.
      subst auth. rewrite Hadmin. reflexivity. }
    split; [exact Hpass|]. intros body.
    destruct (requireAdmin request (run evs s0)) as [auth s1] eqn:E. cbn [fst] in Hpass.
    subst auth. by rewrite (api_room_set_video_run request body _ s1 session E).
Qed.

Lemma empty_server_sessions_are_admin : sessions_are_admin empty_server.
Proof.
  intros token sess u Hsess. cbn [sessions empty_server] in Hsess.
  by rewrite lookup_empty in Hsess.
Qed.

End Privileges.

(* ===================================================================== *)
(** * The reconciler: echo suppression                                    *)
(* ===================================================================== *)

Module Reconciler.
Import Client.

Ltac open_reconciler :=
  unfold applying, sync_playback, elapsed_seconds, switch_video, assign_src,
    remove_src_and_load, assign_playbackRate, assign_currentTime, call_pause, call_play,
    call, on_play, on_seeked, on_ratechange, on_seekBack, on_seekForward;
  cbv zeta.

Section Echo.
Context `{Clock} `{Browser}.

Lemma applyState_run (data : Data) (c : State) :
  let c4 := (applying data c).2 in
  applyState data c =
    (tt, set_ignoreEventsUntil (clock (reads c4) + 600)
           (set_reads S (set_applyingRemote false c4))).
Proof.
  unfold applyState, applying. rewrite !bind_run. reflexivity.
Qed.

(** While applying, nothing goes out and the clock is only read forward. *)
Lemma applying_quiet (data : Data) (c : State) :
  preserves (λ c', sent c' = sent c ∧ (reads c ≤ reads c')%nat) (applying data).
Proof.
  open_reconciler.
  preserves_with ltac:(first
    [ apply preserves_modify; intros ? Hs; exact Hs
    | intros ? [? ?]; split; simpl; [done | lia] ]).
Qed.

(** With [paused] set, [sync_playback] ends on [pause()]. *)
Lemma sync_playback_pauses (data : Data) (c : State) :
  paused data = true →
  el_paused (el (sync_playback data c).2) = true ∧
  Call_pause ∈ calls (sync_playback data c).2.
Proof.
  intros Hp. unfold sync_playback. cbv zeta. rewrite !bind_run, Hp.
  unfold call_pause, call. rewrite bind_run. cbn [modify snd el calls set_el set_calls el_paused].
  split; [reflexivity|]. apply elem_of_app. right. constructor.
Qed.

Lemma pauses_snoc (l : list Action) (a : Action) :
  action a ≠ "pause" → pauses (l ++ [a]) = pauses l.
Proof.
  intros Ha. unfold pauses. rewrite filter_app, filter_cons_False by done.
  rewrite filter_nil. apply app_nil_r.
Qed.

Lemma calm_refl (k0 : nat) (c : State) : suppressing k0 c → calm k0 c c.
Proof. intros Hc. split; [exact Hc|]. split; [reflexivity | lia]. Qed.

Lemma Date_now_calm (k0 : nat) (c : State) : preserves (calm k0 c) Date_now.
Proof.
  intros c' ((Hidle & k & Hk & Hdead) & Hp & Hr). repeat split; simpl; try done; [|lia].
  exists k. split; [lia|done].
Qed.

Lemma sendAction_calm (k0 : nat) (c : State) (kind : string) :
  kind ≠ "pause" → preserves (calm k0 c) (sendAction kind).
Proof.
  intros Hkind c' (Hs & Hp & Hr). unfold sendAction. rewrite bind_run. cbn [gets fst snd].
  destruct (ws_ready c'); [|exact (conj Hs (conj Hp Hr))].
  rewrite bind_run. cbn [gets modify fst snd]. split; [exact Hs|]. split; [|exact Hr].
  cbn [sent set_sent]. by rewrite pauses_snoc.
Qed.

Lemma applyState_calm (k0 : nat) (data : Data) (c : State) :
  suppressing k0 c → calm k0 c (applyState data c).2.
Proof.
  intros (Hidle & k & Hk & Hdead). rewrite applyState_run. cbv zeta. cbn [snd].
  destruct (applying_quiet data c c) as [Hsent Hreads]; [by split|].
  set (c4 := (applying data c).2) in *.
  split; [split; [reflexivity|]|split].
  - exists (reads c4). simpl. split; [lia|reflexivity].
  - simpl. by rewrite Hsent.
  - simpl. lia.
Qed.

Hypothesis clock_monotone : ∀ i j : nat, (i ≤ j)%nat → clock i ≤ clock j.

(** A pause event before the deadline is swallowed: the listener reads the
    clock and returns. *)
Lemma on_pause_suppressed (c : State) :
  applyingRemote c = true ∨ clock (reads c) < ignoreEventsUntil c →
  (on_pause c).2 = c ∨ (on_pause c).2 = set_reads S c.
Proof.
  intros Hc. unfold on_pause. rewrite bind_run. cbn [gets fst snd].
  destruct (applyingRemote c) eqn:E; [by left|].
  destruct Hc as [?|Hlt]; [done|]. right.
  unfold Date_now, bind, gets. cbn [fst snd ignoreEventsUntil set_reads].
  by rewrite (proj2 (Z.ltb_lt _ _) Hlt).
Qed.

Lemma on_pause_calm (k0 : nat) (c : State) :
  suppressing k0 c → clock (reads c) < clock k0 + 600 → calm k0 c (on_pause c).2.
Proof.
  intros (Hidle & k & Hk & Hdead) Hnow.
  assert (Hlt : clock (reads c) < ignoreEventsUntil c).
  { rewrite Hdead. pose proof (clock_monotone k0 k). lia. }
  destruct (on_pause_suppressed c (or_intror Hlt)) as [->| ->].
  - apply calm_refl. split; [done|]. by exists k.
  - repeat split; simpl; try done; [|lia]. exists k. split; [lia|done].
Qed.

Lemma on_pause_reads (c : State) :
  applyingRemote c = false → (reads c < reads (on_pause c).2)%nat.
Proof.
  intros Hidle. unfold on_pause. rewrite bind_run. cbn [gets fst snd]. rewrite Hidle.
  unfold Date_now. unfold bind, gets. cbn [fst snd ignoreEventsUntil set_reads].
  destruct (clock (reads c) <? ignoreEventsUntil c); [simpl; lia|].
  cbn [el set_reads]. destruct (seeking (el c)); [simpl; lia|].
  unfold sendAction, bind, gets, modify. cbn [fst snd ws_ready set_reads].
  destruct (ws_ready c); simpl; lia.
Qed.

(** An event other than [pause] never sends a pause action. *)
Lemma handle_calm (k0 : nat) (ev : Event) (c : State) :
  ev ≠ PauseEvent → suppressing k0 c → calm k0 c (handle ev c).2.
Proof.
  intros Hev Hc. destruct ev; try done; unfold handle.
  - by apply applyState_calm.
  - revert c Hc. enough (Hp : ∀ c0, preserves (calm k0 c0) on_play).
    { intros c Hc. apply Hp. by apply calm_refl. }
    intros c0. open_reconciler.
    preserves_with ltac:(first
      [ apply Date_now_calm | apply sendAction_calm; discriminate ]).
  - revert c Hc. enough (Hp : ∀ c0, preserves (calm k0 c0) on_seeked).
    { intros c Hc. apply Hp. by apply calm_refl. }
    intros c0. open_reconciler.
    preserves_with ltac:(first
      [ apply Date_now_calm | apply sendAction_calm; discriminate ]).
  - revert c Hc. enough (Hp : ∀ c0, preserves (calm k0 c0) on_ratechange).
    { intros c Hc. apply Hp. by apply calm_refl. }
    intros c0. open_reconciler.
    preserves_with ltac:(first
      [ apply Date_now_calm | apply sendAction_calm; discriminate ]).
  - revert c Hc. enough (Hp : ∀ c0, preserves (calm k0 c0) on_seekBack).
    { intros c Hc. apply Hp. by apply calm_refl. }
    intros c0. open_reconciler.
    preserves_with ltac:(first
      [ apply sendAction_calm; discriminate
      | apply preserves_modify; intros ? Hs; exact Hs ]).
  - revert c Hc. enough (Hp : ∀ c0, preserves (calm k0 c0) on_seekForward).
    { intros c Hc. apply Hp. by apply calm_refl. }
    intros c0. open_reconciler.
    preserves_with ltac:(first
      [ apply sendAction_calm; discriminate
      | apply preserves_modify; intros ? Hs; exact Hs ]).
Qed.

(** No handler turns the read counter back. *)
Lemma handle_reads (ev : Event) (c : State) : (reads c ≤ reads (handle ev c).2)%nat.
Proof.
  enough (Hp : preserves (λ c', (reads c ≤ reads c')%nat) (handle ev)) by (by apply Hp).
  destruct ev; unfold handle, applyState, on_pause, sendAction; open_reconciler;
    unfold sendAction;
    preserves_with ltac:(first
      [ apply preserves_modify; intros ? Hs; exact Hs
      | intros ? ?; simpl; lia ]).
Qed.

Lemma run_reads (evs : list Event) (c : State) : (reads c ≤ reads (run evs c))%nat.
Proof.
  revert c. induction evs as [|ev evs IH]; intros c; simpl; [lia|].
  pose proof (handle_reads ev c). pose proof (IH (handle ev c).2).
  unfold run in *. lia.
Qed.

(** As long as the clock reads before the deadline, no pause action goes
    out, whatever happens to the script. *)
Lemma run_calm (k0 : nat) (evs : list Event) (c : State) :
  suppressing k0 c →
  (∀ n, (n < reads (run evs c))%nat → clock n < clock k0 + 600) →
  calm k0 c (run evs c).
Proof.
  revert c. induction evs as [|ev evs IH]; intros c Hc Hclock; [by apply calm_refl|].
  change (run (ev :: evs) c) with (run evs (handle ev c).2) in *.
  assert (Hstep : calm k0 c (handle ev c).2).
  { assert (Hev : ev = PauseEvent ∨ ev ≠ PauseEvent) by (destruct ev; auto).
    destruct Hev as [->|Hev]; [|by apply handle_calm].
    apply on_pause_calm; [done|]. apply Hclock.
    pose proof (on_pause_reads c (proj1 Hc)).
    pose proof (run_reads evs (handle PauseEvent c).2). unfold handle in *. lia. }
  destruct Hstep as (Hc' & Hp' & Hr').
  destruct (IH (handle ev c).2 Hc' Hclock) as (Hc'' & Hp'' & Hr'').
  split; [done|]. split; [congruence | lia].
Qed.

(** C1.  Applying a state message with [paused] set pauses the element
    (when the message names a video), sends nothing, and leaves the
    reconciler idle with [ignoreEventsUntil] 600ms after the clock reading
    it ends on.  A pause event that finds [applyingRemote] set, or the
    clock before [ignoreEventsUntil], is swallowed: the listener returns
    with nothing sent.  So whatever events follow the application, no pause
    action goes out while the clock reads before that deadline. *)
Theorem no_pause_echo_within_window (data : Data) (c : State) (evs : list Event) :
  paused data = true →
  let c1 := (applyState data c).2 in
  applyingRemote c1 = false ∧
  (∃ k, (reads c ≤ k)%nat ∧ reads c1 = S k ∧ ignoreEventsUntil c1 = clock k + 600) ∧
  sent c1 = sent c ∧
  (Js.truthy_str (videoPath data) = true →
     el_paused (el c1) = true ∧ Call_pause ∈ calls c1) ∧
  (∀ c', applyingRemote c' = true ∨ clock (reads c') < ignoreEventsUntil c' →
     (on_pause c').2 = c' ∨ (on_pause c').2 = set_reads S c') ∧
  ((∀ n, (n < reads (run evs c1))%nat → clock n < ignoreEventsUntil c1) →
     pauses (sent (run evs c1)) = pauses (sent c)).
Proof.
  intros Hpaused c1.
  destruct (applying_quiet data c c) as [Hsent Hreads]; [by split|].
  assert (Hc1 : c1 = set_ignoreEventsUntil (clock (reads (applying data c).2) + 600)
                       (set_reads S (set_applyingRemote false (applying data c).2))).
  { unfold c1. by rewrite applyState_run. }
  set (c4 := (applying data c).2) in *.
  assert (Hs : suppressing (reads c4) c1).
  { rewrite Hc1. split; [reflexivity|]. exists (reads c4). simpl. split; [lia|reflexivity]. }
  split; [by rewrite Hc1|]. split.
  { exists (reads c4). by rewrite Hc1. }
  split; [by rewrite Hc1|]. split.
  { intros Hvideo. rewrite Hc1. cbn [el calls set_ignoreEventsUntil set_reads set_applyingRemote].
    unfold c4, applying. rewrite !bind_run, Hvideo. by apply sync_playback_pauses. }
  split; [apply on_pause_suppressed|].
  intros Hclock.
  destruct (run_calm (reads c4) evs c1 Hs) as (_ & Hp & _).
  - intros n Hn. specialize (Hclock n Hn). by rewrite Hc1 in Hclock.
  - rewrite Hp, Hc1. simpl. by rewrite Hsent.
Qed.

End Echo.

(* ===================================================================== *)
(** * The reconciler: drift correction                                    *)
(* ===================================================================== *)

Section Drift.
Context `{Clock} `{Browser}.



(** A message for the video already loaded leaves the element where it is. *)
Lemma local_position_same_video (data : Data) (c : State) :
  videoPath data = currentVideo c → local_position data c = currentTime (el c).
Proof.
  intros Hsame. unfold local_position, before_sync, assign_playbackRate, switch_video, call.
  rewrite !bind_run. cbn [gets modify fst snd currentVideo set_applyingRemote].
  rewrite bool_decide_eq_false_2 by (intros Hne; by apply Hne). reflexivity.
Qed.





End Drift.
End Reconciler.

(* ===================================================================== *)
(** * The properties on the concrete server and viewer                    *)
(* ===================================================================== *)

(** Two numbers with different answers to a test are different. *)
Lemma float_neq (f : float → bool) (x y : float) : f x ≠ f y → x ≠ y.
Proof. intros Hf ->. by apply Hf. Qed.

Lemma unknown_action_kind_is_ignored_witness :
  let p := action_payload "foo" (Js.Num 99) (Js.Num 2) in
  payload_type p = Js.Str "action" ∧
  @ws_message sample_clock sample_env 1%nat "main" (Object p) watching = (tt, watching).
Proof.
  split; [reflexivity|].
  apply unknown_action_kind_is_ignored; [reflexivity|].
  intros kind Hin Heq. injection Heq as <-.
  revert Hin. apply (bool_decide_unpack _). exact I.
Defined.


(** C5, refuted as stated: the room is at 42s, a sync action without a
    position arrives, and the room is at 0s. *)
Lemma omitted_position_is_not_kept :
  let p := action_payload "sync" Js.Undefined Js.Undefined in
  let s' := (@ws_message sample_clock sample_env 1%nat "main" (Object p) watching).2 in
  payload_position p = Js.Undefined ∧
  position <$> room_state watching !! "main" = Some 42%float ∧
  position <$> room_state s' !! "main" = Some 0%float ∧
  position <$> room_state s' !! "main" ≠ position <$> room_state watching !! "main".
Proof.
  intros p s'.
  assert (H1 : position <$> room_state watching !! "main" = Some 42%float)
    by (vm_compute; reflexivity).
  assert (H2 : position <$> room_state s' !! "main" = Some 0%float)
    by (vm_compute; reflexivity).
  repeat split; try assumption.
  rewrite H1, H2. intros Heq. apply (inj Some) in Heq.
  revert Heq. apply (float_neq is_zero). vm_compute. discriminate.
Qed.

Lemma omitted_field_takes_default_witness :
  let p := action_payload "sync" Js.Undefined Js.Undefined in
  let s' := (@ws_message sample_clock sample_env 1%nat "main" (Object p) watching).2 in
  ∃ next, room_state s' !! "main" = Some next ∧ position next = zero ∧ playback_rate next = one.
Proof.
  intros p s'.
  destruct (@omitted_field_takes_default sample_clock sample_env 1%nat "main" p watching "sync")
    as (next & Hrow & Hpos & Hrate & _).
  - reflexivity.
  - reflexivity.
  - apply (bool_decide_unpack _). exact I.
  - exists next. split; [exact Hrow|]. split; [by apply Hpos | by apply Hrate].
Defined.

Lemma sync_with_current_state_is_idempotent_witness :
  let row := mkRoom (Some "movie.mp4") 42 0 1 1700000003250 in
  let p := action_payload "sync" (Js.Num 42) (Js.Num 1) in
  let s' := (@ws_message sample_clock sample_env 2%nat "main" (Object p) watching).2 in
  room_state watching !! "main" = Some row ∧
  ∃ next, room_state s' !! "main" = Some next ∧
          next = mkRoom (Some "movie.mp4") 42 0 1 (updated_at next).
Proof.
  intros row p s'.
  assert (Hrow : room_state watching !! "main" = Some row) by (vm_compute; reflexivity).
  split; [exact Hrow|].
  apply (@sync_with_current_state_is_idempotent sample_clock sample_env 2%nat "main" p watching row);
    try reflexivity.
Defined.

Lemma set_video_resets_playback_witness :
  let body := mkSetVideoBody (Some "main") (Some (Some "other.mp4")) in
  let s' := (@api_room_set_video sample_clock admin_request body watching).2 in
  position <$> room_state watching !! "main" = Some 42%float ∧
  (@requireAdmin sample_clock admin_request watching).1
    = AuthOk (mkSession 1 "admin@example.com" true) ∧
  ∃ next, room_state s' !! "main" = Some next ∧
          video_path next = Some "other.mp4" ∧ position next = zero ∧ paused next = 1.
Proof.
  intros body s'.
  split; [vm_compute; reflexivity|]. split; [vm_compute; reflexivity|].
  destruct (@set_video_resets_playback sample_clock admin_request body watching
              (@requireAdmin sample_clock admin_request watching).2
              (mkSession 1 "admin@example.com" true) "other.mp4")
    as (_ & next & Hrow & Hv & Hp & Hpaused & _).
  - vm_compute. reflexivity.
  - reflexivity.
  - exists next. auto.
Defined.

(** C6, at a concrete request.  The main room shows "movie.mp4"; an
    administrator posts [{ videoPath: null }] to clear it; the room still
    shows "movie.mp4", reset to position 0 and paused. *)
Theorem set_video_null_does_not_clear :
  let body := mkSetVideoBody (Some "main") (Some None) in
  let s' := (@api_room_set_video sample_clock admin_request body watching).2 in
  video_path <$> room_state watching !! "main" = Some (Some "movie.mp4") ∧
  (@api_room_set_video sample_clock admin_request body watching).1 = JsonOk ∧
  video_path <$> room_state s' !! "main" = Some (Some "movie.mp4") ∧
  paused <$> room_state s' !! "main" = Some 1.
Proof. vm_compute. repeat split; reflexivity. Qed.

Lemma sample_clock_monotone (i j : nat) : (i ≤ j)%nat → sample_clock i ≤ sample_clock j.
Proof. unfold sample_clock. lia. Qed.

Lemma updated_at_is_non_decreasing_witness :
  room_state logged_in !! "main" = None ∧
  updated_at <$> @snapshots sample_clock sample_env "main" evening logged_in
    = [1700000001500; 1700000001500; 1700000002750; 1700000003250] ∧
  StronglySorted (λ a b, updated_at a ≤ updated_at b)
    (@snapshots sample_clock sample_env "main" evening logged_in).
Proof.
  split; [vm_compute; reflexivity|]. split; [vm_compute; reflexivity|].
  apply (@updated_at_is_non_decreasing sample_clock sample_env "main" sample_clock_monotone
           evening logged_in).
  vm_compute. reflexivity.
Defined.

Lemma seeded_sessions_are_admin : sessions_are_admin seeded.
Proof. intros token sess u Hsess. vm_compute in Hsess. discriminate. Qed.

Lemma every_authenticated_user_is_admin_witness :
  let s := @run sample_clock sample_env guest_evening seeded in
  let guest := mkSession 4 "guest@example.com" true in
  (@requireAuth sample_clock (mkRequest (Some "gu3st")) s).1 = AuthOk guest ∧
  (@requireAdmin sample_clock (mkRequest (Some "gu3st")) s).1 = AuthOk guest.
Proof.
  intros s guest.
  assert (Hauth : (@requireAuth sample_clock (mkRequest (Some "gu3st")) s).1 = AuthOk guest)
    by (vm_compute; reflexivity).
  split; [exact Hauth|].
  destruct (@every_authenticated_user_is_admin sample_clock sample_env) as (_ & _ & Hadmin).
  exact (proj1 (Hadmin seeded guest_evening (mkRequest (Some "gu3st")) guest
                  seeded_sessions_are_admin Hauth)).
Defined.

Lemma no_pause_echo_within_window_witness :
  let data := paused_at_10 (Some "movie.mp4") in
  let c1 := (@Client.applyState sample_clock sample_browser data (viewer_at 9)).2 in
  let c2 := @Client.run sample_clock sample_browser [Client.PauseEvent; Client.SeekedEvent] c1 in
  Client.paused data = true ∧
  Client.ignoreEventsUntil c1 = 1700000000850 ∧
  Client.reads c2 = 4%nat ∧
  Client.pauses (Client.sent c2) = [].
Proof.
  intros data c1 c2.
  assert (Hdeadline : Client.ignoreEventsUntil c1 = 1700000000850) by (vm_compute; reflexivity).
  assert (Hreads : Client.reads c2 = 4%nat) by (vm_compute; reflexivity).
  split; [reflexivity|]. split; [exact Hdeadline|]. split; [exact Hreads|].
  destruct (@Reconciler.no_pause_echo_within_window sample_clock sample_browser
              sample_clock_monotone data (viewer_at 9)
              [Client.PauseEvent; Client.SeekedEvent] eq_refl)
    as (_ & _ & _ & _ & _ & Hwindow).
  apply Hwindow. fold c1 c2. rewrite Hreads, Hdeadline.
  intros n Hn. unfold clock, sample_clock. lia.
Defined.



(* ===================================================================== *)
(** * Further properties of the store and the hub                         *)
(* ===================================================================== *)

Section HubMore.
Context `{Clock} `{ServerEnv}.

(** X1.  Reading a room a second time returns the row of the first read
    and changes nothing, not even the clock: a room is created once. *)
Theorem getRoomState_twice (r : string) (s : Server) :
  getRoomState r (getRoomState r s).2 = ((getRoomState r s).1, (getRoomState r s).2).
Proof.
  rewrite (getRoomState_run r (getRoomState r s).2), getRoomState_stored. reflexivity.
Qed.


Lemma is_string_true (lit : string) (a : Js.Value) :
  Js.is_string lit a = true ↔ a = Js.Str lit.
Proof.
  destruct a; simpl; try (split; [discriminate | by intros [=]]).
  rewrite String.eqb_eq. split; [by intros -> | by intros [=]].
Qed.

(** A frame is either dropped, or it is an accepted action. *)
Lemma ws_message_cases (ws : Socket) (r : string) (frame : Frame) (s : Server) :
  ws_message ws r frame s = (tt, s) ∨ is_accepted_action frame.
Proof.
  destruct frame as [| |p]; [by left | by left |].
  unfold ws_message. cbv zeta.
  destruct (Js.is_string "action" (payload_type p)) eqn:Etype; [|by left].
  destruct (Js.includes action_kinds (payload_action p)) eqn:Einc; [|by left].
  right. apply is_string_true in Etype.
  apply includes_action_kinds in Einc as (kind & Hin & Hkind).
  by exists p, kind.
Qed.


(** What an action sends: states of its room, to sockets of its room. *)
Lemma ws_message_outbox (ws : Socket) (r : string) (frame : Frame) (s : Server) :
  ∃ new, outbox (ws_message ws r frame s).2 = outbox s ++ new ∧
         Forall (λ e, roomId e.2 = r ∧ e.1 ∈ members r s) new.
Proof.
  destruct (ws_message_cases ws r frame s) as [->|(p & kind & -> & Htype & Haction & Hkind)].
  - exists []. by rewrite app_nil_r.
  - rewrite (ws_message_accepted ws r p s kind Htype Haction Hkind). cbn [snd].
    destruct (getRoomState_frame r s) as (_ & _ & _ & _ & Ho & _).
    cbn [outbox set_outbox set_room_state set_tick].
    eexists. split; [by rewrite Ho|].
    apply Forall_fmap, Forall_forall. intros w Hw. by split.
Qed.

(** X4.  An action stays in its room: the rows of the other rooms, the
    socket registry and the tables of users, sessions and invites are as
    before, and every message it sends is a state of that room addressed
    to a socket registered for that room. *)
Theorem action_stays_in_its_room (ws : Socket) (r : string) (frame : Frame) (s : Server) :
  let s' := (ws_message ws r frame s).2 in
  (∀ r', r' ≠ r → room_state s' !! r' = room_state s !! r') ∧
  socketsByRoom s' = socketsByRoom s ∧
  users s' = users s ∧ sessions s' = sessions s ∧ invites s' = invites s ∧
  ∃ new, outbox s' = outbox s ++ new ∧
         Forall (λ e, roomId e.2 = r ∧ e.1 ∈ members r s) new.
Proof.
  intros s'. subst s'.
  split; [|split; [|split; [|split; [|split; [|apply ws_message_outbox]]]]];
    destruct (ws_message_cases ws r frame s) as [->|(p & kind & -> & Htype & Haction & Hkind)];
    try reflexivity;
    rewrite (ws_message_accepted ws r p s kind Htype Haction Hkind); cbn [snd];
    destruct (getRoomState_frame r s) as (Hu & Hs & Hi & Hk & Ho & _);
    cbn [room_state socketsByRoom users sessions invites outbox
         set_outbox set_room_state set_tick]; try done.
  intros r' Hne. rewrite lookup_insert_ne by done.
  rewrite getRoomState_run. destruct (room_state s !! r); [done|].
  cbn [snd room_state set_room_state set_tick]. by rewrite lookup_insert_ne.
Qed.

(** websocket.open, in one equation. *)
Lemma ws_open_run (ws : Socket) (r : string) (s : Server) :
  let row := (getRoomState r s).1 in
  let s1 := (getRoomState r s).2 in
  ws_open ws r s =
    (tt, set_outbox (λ o, o ++ [(ws, mkStateMsg r (video_path row) (position row)
                                       (paused row =? 1) (playback_rate row)
                                       (updated_at row) (clock (tick s1)))])
           (set_socketsByRoom (λ m, <[r := Set_add ws (default [] (m !! r))]> m)
              (set_tick S s1))).
Proof.
  intros row s1. subst row s1. unfold ws_open, ensureRoomSockets, state_message, send.
  rewrite !bind_run. cbn [modify gets ret fst snd].
  rewrite !getRoomState_run. cbn [room_state set_socketsByRoom].
  assert (Hreg : ∀ m : gmap string (list Socket),
            alter (Set_add ws) r (match m !! r with None => <[r:=[]]> m | Some _ => m end)
            = <[r := Set_add ws (default [] (m !! r))]> m).
  { intros m. apply map_eq. intros k. rewrite lookup_alter, lookup_insert.
    destruct (decide (r = k)) as [<-|Hne].
    - destruct (m !! r) eqn:E; simpl; [by rewrite E|]. by rewrite lookup_insert_eq.
    - destruct (m !! r); [done|]. by rewrite lookup_insert_ne. }
  destruct (room_state s !! r) as [row|]; unfold Date_now, bind, ret, modify;
    unfold set_outbox, set_socketsByRoom, set_tick, set_room_state;
    cbn [fst snd tick socketsByRoom room_state outbox users invites sessions];
    rewrite Hreg; reflexivity.
Qed.

Lemma Set_add_elem (ws : Socket) (l : list Socket) : ws ∈ Set_add ws l.
Proof. unfold Set_add. case_bool_decide; [done|]. apply elem_of_app. right. constructor. Qed.

Lemma Set_add_keeps (ws w : Socket) (l : list Socket) : w ∈ l → w ∈ Set_add ws l.
Proof. intros Hw. unfold Set_add. case_bool_decide; [done|]. apply elem_of_app. by left. Qed.

(** What an open does to the outbox, the room and the registry. *)
Lemma ws_open_effect (ws : Socket) (r : string) (s : Server) :
  let row := (getRoomState r s).1 in
  let s' := (ws_open ws r s).2 in
  (∃ t, outbox s' = outbox s ++
          [(ws, mkStateMsg r (video_path row) (position row) (paused row =? 1)
                  (playback_rate row) (updated_at row) t)]) ∧
  room_state s' !! r = Some row ∧
  members r s' = Set_add ws (members r s).
Proof.
  intros row s'. subst s'. rewrite ws_open_run. fold row. cbn [snd].
  destruct (getRoomState_frame r s) as (_ & _ & _ & Hk & Ho & _).
  split; [|split].
  - eexists. cbn [outbox set_outbox set_socketsByRoom set_tick]. by rewrite Ho.
  - cbn [room_state set_outbox set_socketsByRoom set_tick]. apply getRoomState_stored.
  - unfold members. cbn [socketsByRoom set_outbox set_socketsByRoom set_tick].
    by rewrite lookup_insert_eq, Hk.
Qed.

(** The row made for a room nobody has seen. *)
Lemma getRoomState_fresh (r : string) (s : Server) :
  room_state s !! r = None →
  (getRoomState r s).1 = mkRoom None zero 1 one (clock (tick s)).
Proof. intros Hfresh. by rewrite getRoomState_run, Hfresh. Qed.

(** X5.  A socket that opens is registered for its room and is sent the
    current state of the room at once, it alone; for a room nobody has
    seen, that state is the default: no video, position 0, paused, rate 1. *)
Theorem joiner_receives_current_state (ws : Socket) (r : string) (s : Server) :
  let row := (getRoomState r s).1 in
  let s' := (ws_open ws r s).2 in
  (∃ t, outbox s' = outbox s ++
          [(ws, mkStateMsg r (video_path row) (position row) (paused row =? 1)
                  (playback_rate row) (updated_at row) t)]) ∧
  room_state s' !! r = Some row ∧
  members r s' = Set_add ws (members r s) ∧
  ws ∈ members r s' ∧
  (room_state s !! r = None → row = mkRoom None zero 1 one (clock (tick s))).
Proof.
  intros row s'. destruct (ws_open_effect ws r s) as (Ho & Hrow & Hm).
  split; [exact Ho|]. split; [exact Hrow|]. split; [exact Hm|]. split.
  - unfold s'. rewrite Hm. apply Set_add_elem.
  - apply getRoomState_fresh.
Qed.

(** X6.  Two sockets that join a room nobody has seen are sent the same
    default state, stamped with the one reading of the clock made when the
    room was created; both are registered afterwards. *)
Theorem two_joiners_same_state (ws1 ws2 : Socket) (r : string) (s : Server) :
  room_state s !! r = None →
  let s2 := (ws_open ws2 r (ws_open ws1 r s).2).2 in
  let state t := mkStateMsg r None zero true one (clock (tick s)) t in
  (∃ t1 t2, outbox s2 = outbox s ++ [(ws1, state t1); (ws2, state t2)]) ∧
  room_state s2 !! r = Some (mkRoom None zero 1 one (clock (tick s))) ∧
  ws1 ∈ members r s2 ∧ ws2 ∈ members r s2.
Proof.
  intros Hfresh s2 state.
  destruct (ws_open_effect ws1 r s) as ((t1 & Ho1) & Hrow1 & Hm1).
  set (s1 := (ws_open ws1 r s).2) in *.
  destruct (ws_open_effect ws2 r s1) as ((t2 & Ho2) & Hrow2 & Hm2).
  fold s2 in Ho2, Hrow2, Hm2.
  rewrite (getRoomState_fresh r s Hfresh) in Hrow1, Ho1.
  assert (Hsame : (getRoomState r s1).1 = mkRoom None zero 1 one (clock (tick s))).
  { by rewrite getRoomState_run, Hrow1. }
  rewrite Hsame in Ho2, Hrow2. cbn [video_path position paused playback_rate updated_at] in *.
  split; [|split; [done|split]].
  - exists t1, t2. rewrite Ho2, Ho1, <- app_assoc. reflexivity.
  - rewrite Hm2, Hm1. apply Set_add_keeps, Set_add_elem.
  - rewrite Hm2. apply Set_add_elem.
Qed.

Lemma Set_add_NoDup (ws : Socket) (l : list Socket) : NoDup l → NoDup (Set_add ws l).
Proof.
  intros Hl. unfold Set_add. case_bool_decide; [done|].
  apply NoDup_app. split; [done|]. split; [|apply NoDup_singleton].
  intros x Hx Hx'. apply list_elem_of_singleton in Hx'. by subst.
Qed.

Lemma Set_delete_NoDup (ws : Socket) (l : list Socket) : NoDup l → NoDup (Set_delete ws l).
Proof. intros Hl. unfold Set_delete. by apply NoDup_filter. Qed.

Lemma alter_socket_sets (f : list Socket → list Socket) (r : string) (s : Server) :
  (∀ l, NoDup l → NoDup (f l)) →
  socket_sets s → socket_sets (set_socketsByRoom (alter f r) s).
Proof.
  intros Hf Hs r' l. cbn [socketsByRoom set_socketsByRoom]. rewrite lookup_alter.
  destruct (decide (r = r')) as [<-|Hne]; [|apply Hs].
  destruct (socketsByRoom s !! r) as [l0|] eqn:E; [|done].
  simpl. intros [= <-]. apply Hf. by apply (Hs r).
Qed.

(** No handler registers a socket twice for a room. *)
Lemma handle_socket_sets (ev : Event) : preserves socket_sets (handle ev).
Proof.
  destruct ev; unfold handle; open_handlers;
    preserves_with ltac:(first
      [ intros ? Hs; rewrite send_each_run; exact Hs
      | intros ? Hs ? ?; rewrite (proj1 (proj2 (proj2 (proj2 (getRoomState_frame _ _)))));
        apply Hs
      | intros ? Hs; rewrite updateRoomState_run; intros ? ?;
        cbn [snd socketsByRoom set_room_state set_tick];
        rewrite (proj1 (proj2 (proj2 (proj2 (getRoomState_frame _ _))))); apply Hs
      | intros ? Hs; exact Hs
      | apply preserves_modify; intros ? Hs; exact Hs
      | apply preserves_modify; intros ? Hs; apply alter_socket_sets;
        [apply Set_add_NoDup || apply Set_delete_NoDup | exact Hs]
      | apply preserves_modify; intros s0 Hs r' l; cbn [socketsByRoom set_socketsByRoom];
        match goal with |- context [match ?m !! ?k with _ => _ end] =>
          destruct (m !! k) eqn:?; [apply Hs|] end;
        rewrite lookup_insert; case_decide; [intros [= <-]; constructor | apply Hs] ]).
Qed.

Lemma run_socket_sets (evs : list Event) (s : Server) :
  socket_sets s → socket_sets (run evs s).
Proof.
  revert s. induction evs as [|ev evs IH]; intros s Hs; [exact Hs|].
  apply IH. by apply handle_socket_sets.
Qed.

(** X7.  Whatever happened before (sockets opening twice, closing,
    re-opening), an accepted action puts exactly one copy of the new state
    in the outbox for each socket registered for the room, the sender
    included. *)
Theorem one_copy_per_member
    (evs : list Event) (s0 : Server) (ws : Socket) (r : string) (frame : Frame) :
  socket_sets s0 →
  is_accepted_action frame →
  let s := run evs s0 in
  let s' := (ws_message ws r frame s).2 in
  ∃ next t,
    let m := mkStateMsg r (video_path next) (position next) (paused next =? 1)
               (playback_rate next) (updated_at next) t in
    room_state s' !! r = Some next ∧
    outbox s' = outbox s ++ ((λ w, (w, m)) <$> members r s) ∧
    NoDup (members r s) ∧
    (ws ∈ members r s → (ws, m) ∈ outbox s').
Proof.
  intros Hs0 (p & kind & -> & Htype & Haction & Hkind) s s'. subst s'.
  rewrite (ws_message_accepted ws r p s kind Htype Haction Hkind). cbn [snd].
  assert (Ho : outbox (getRoomState r s).2 = outbox s) by apply getRoomState_frame.
  eexists _, _. cbv zeta.
  cbn [room_state outbox set_outbox set_room_state set_tick].
  split; [apply lookup_insert_eq|]. rewrite Ho. split; [reflexivity|]. split.
  - pose proof (run_socket_sets evs s0 Hs0) as Hs. fold s in Hs. unfold members.
    destruct (socketsByRoom s !! r) as [l|] eqn:E; [by apply (Hs r)|constructor].
  - intros Hin. apply elem_of_app. right.
    apply (list_elem_of_fmap_2 (λ w, (w, _)) _ ws Hin).
Qed.

(** X8.  A socket that closed is no longer registered for its room, the
    other sockets of the room and all other rooms keep their registration,
    and a later action in the room sends it nothing. *)
Theorem closed_socket_gets_no_broadcast
    (ws ws' : Socket) (r : string) (frame : Frame) (s : Server) :
  let s1 := (ws_close ws r s).2 in
  let s2 := (ws_message ws' r frame s1).2 in
  (ws ∉ members r s1) ∧
  (∀ w, w ≠ ws → w ∈ members r s → w ∈ members r s1) ∧
  (∀ r', r' ≠ r → members r' s1 = members r' s) ∧
  ∃ new, outbox s2 = outbox s ++ new ∧ Forall (λ e, e.1 ≠ ws) new.
Proof.
  intros s1 s2.
  assert (Hm : members r s1 = Set_delete ws (members r s)).
  { unfold members, s1, ws_close. cbn [modify snd socketsByRoom set_socketsByRoom].
    rewrite lookup_alter_eq. by destruct (socketsByRoom s !! r). }
  assert (Hout : ws ∉ members r s1).
  { rewrite Hm. unfold Set_delete. rewrite list_elem_of_filter. intros [Hne _]. by apply Hne. }
  split; [exact Hout|]. split; [|split].
  - intros w Hne Hin. rewrite Hm. unfold Set_delete. by apply list_elem_of_filter.
  - intros r' Hne. unfold members, s1, ws_close.
    cbn [modify snd socketsByRoom set_socketsByRoom]. by rewrite lookup_alter_ne.
  - destruct (ws_message_outbox ws' r frame s1) as (new & Ho & Hnew).
    exists new. split; [exact Ho|].
    eapply Forall_impl; [exact Hnew|]. intros e [_ Hin] Heq.
    rewrite Heq in Hin. by apply Hout.
Qed.


End HubMore.

(* ===================================================================== *)
(** * Further properties of sessions, users and invites                   *)
(* ===================================================================== *)

(** The handlers, opened down to the store, the clock, the tables and the
    user upsert. *)
Ltac open_routes :=
  unfold api_me, api_videos, api_room_state, api_room_set_video, api_auth_login,
    api_auth_logout, api_invites_create, api_invites_accept, api_invites,
    ws_connect, ws_message, ws_open, ws_close, cli_invite, open_session,
    insert_session, insert_invite, requireAdmin, requireAuth, getSession,
    state_message, ensureRoomSockets, broadcastRoom, send, nowIso;
  cbv zeta.

Section SessionsMore.
Context `{Clock} `{ServerEnv}.

(** What a successful session lookup found. *)
Lemma getSession_Some (request : Request) (s : Server) (session : Session) :
  (getSession request s).1 = Some session →
  ∃ token sess u,
    cookie_sp_session request = Some token ∧ token ≠ "" ∧
    sessions s !! token = Some sess ∧ users s !! user_id sess = Some u ∧
    ¬ expires_at sess < clock (tick s) ∧
    session = mkSession (user_id sess) (email u) (is_admin u =? 1) ∧
    (getSession request s).2 = set_tick S s.
Proof.
  unfold getSession.
  destruct (cookie_sp_session request) as [token|]; [|discriminate].
  destruct (String.eqb token "") eqn:Etok; [discriminate|].
  rewrite bind_run. cbn [gets fst snd].
  destruct (sessions s !! token) as [sess|] eqn:Esess; [|discriminate].
  destruct (users s !! user_id sess) as [u|] eqn:Eu; [|discriminate].
  unfold Date_now, bind. cbn [fst snd].
  destruct (expires_at sess <? clock (tick s)) eqn:Eexp; [discriminate|].
  cbn [ret fst snd]. intros [= <-]. exists token, sess, u.
  apply String.eqb_neq in Etok. apply Z.ltb_ge in Eexp.
  repeat split; try done. lia.
Qed.



(** X11.  A session whose expiry the clock has passed does not
    authenticate: the lookup answers "no session" and deletes the row, and
    the next lookup with that cookie finds nothing and reads no clock. *)
Theorem expired_session_is_deleted
    (token : string) (sess : SessionRow) (u : UserRow) (s : Server) :
  token ≠ "" →
  sessions s !! token = Some sess →
  users s !! user_id sess = Some u →
  expires_at sess < clock (tick s) →
  let s' := set_sessions (delete token) (set_tick S s) in
  getSession (mkRequest (Some token)) s = (None, s') ∧
  getSession (mkRequest (Some token)) s' = (None, s').
Proof.
  intros Htok Hsess Hu Hexp s'. unfold getSession. cbn [cookie_sp_session].
  rewrite (proj2 (String.eqb_neq _ _) Htok), !bind_run. cbn [gets fst snd].
  rewrite Hsess, Hu. unfold Date_now, bind. cbn [fst snd].
  rewrite (proj2 (Z.ltb_lt _ _) Hexp). cbn [modify ret fst snd]. split; [reflexivity|].
  subst s'. cbn [sessions set_sessions set_tick]. by rewrite lookup_delete_eq.
Qed.

(** X12.  Logging out ends every session of the user, not only the one
    presented: afterwards no cookie authenticates as that user, while the
    sessions of the other users and the user table are as they were. *)
Theorem logout_ends_every_session (request : Request) (s : Server) (session : Session) :
  (getSession request s).1 = Some session →
  let s' := (api_auth_logout request s).2 in
  (∀ request' session',
     (getSession request' s').1 = Some session' → userId session' ≠ userId session) ∧
  (∀ token sess, sessions s !! token = Some sess → user_id sess ≠ userId session →
     sessions s' !! token = Some sess) ∧
  users s' = users s.
Proof.
  intros Hfound s'.
  destruct (getSession_Some request s session Hfound)
    as (token & sess & u & _ & _ & _ & _ & _ & _ & Hstate).
  assert (Hs' : s' = set_sessions (filter (λ kv, user_id kv.2 ≠ userId session))
                       (set_tick S s)).
  { unfold s', api_auth_logout. rewrite bind_run, Hfound, Hstate. reflexivity. }
  rewrite Hs'. split; [|split; [|reflexivity]].
  - intros request' session' Hfound'.
    destruct (getSession_Some request' _ session' Hfound')
      as (token' & sess' & u' & _ & _ & Hsess' & _ & _ & -> & _).
    cbn [sessions set_sessions set_tick userId] in *.
    apply map_lookup_filter_Some in Hsess' as [_ Hne]. exact Hne.
  - intros token' sess' Hsess' Hne. cbn [sessions set_sessions set_tick].
    by apply map_lookup_filter_Some.
Qed.

(** A new row id is not in the table. *)
Lemma next_rowid_fresh {V} (table : gmap Z V) : table !! next_rowid table = None.
Proof.
  enough (Hmax : ∀ id x, table !! id = Some x →
            id ≤ map_fold (λ id _ acc, Z.max id acc) 0 table).
  { destruct (table !! next_rowid table) as [x|] eqn:E; [|done].
    apply Hmax in E. unfold next_rowid in E. lia. }
  apply (map_fold_weak_ind (λ r m, ∀ id x, m !! id = Some x → id ≤ r)).
  - intros id x Hx. by rewrite lookup_empty in Hx.
  - intros i x m r Hi IH id y. rewrite lookup_insert. case_decide.
    + intros _. subst. lia.
    + intros Hy. specialize (IH id y Hy). lia.
Qed.

Lemma keeps_users_refl (s : Server) : keeps_users s s.
Proof. intros id u Hu. exists u. auto. Qed.

Lemma keeps_users_trans (s1 s2 s3 : Server) :
  keeps_users s1 s2 → keeps_users s2 s3 → keeps_users s1 s3.
Proof.
  intros H12 H23 id u Hu.
  destruct (H12 id u Hu) as (u2 & Hu2 & He2 & Hc2 & Ha2).
  destruct (H23 id u2 Hu2) as (u3 & Hu3 & He3 & Hc3 & Ha3).
  exists u3. repeat split; [done|congruence|congruence|].
  destruct Ha3 as [?|?]; [|by right]. destruct Ha2 as [?|?]; [left|right]; congruence.
Qed.

Lemma upserted_keeps (table : gmap Z UserRow) (e : string) (now : Z) (id : Z) (u : UserRow) :
  table !! id = Some u →
  ∃ u', upserted table e now !! id = Some u' ∧ email u' = email u ∧
        user_created_at u' = user_created_at u ∧
        (is_admin u' = is_admin u ∨ is_admin u' = 1).
Proof.
  intros Hu. unfold upserted. destruct (select_user_by_email table e).
  - rewrite lookup_fmap, Hu. simpl. eexists. split; [done|].
    destruct (String.eqb (email u) e); simpl; auto.
  - rewrite lookup_insert_ne; [exists u; auto|].
    intros Heq. rewrite <- Heq, next_rowid_fresh in Hu. discriminate.
Qed.

(** No handler removes a user, changes an address or lowers a flag. *)
Lemma handle_keeps_users (s0 : Server) (ev : Event) : preserves (keeps_users s0) (handle ev).
Proof.
  destruct ev; unfold handle; open_routes;
    preserves_with ltac:(first
      [ intros ? Hs; rewrite send_each_run; exact Hs
      | intros ? Hs; rewrite upsertUser_run; eapply keeps_users_trans; [exact Hs|];
        intros ? ? ?; by apply upserted_keeps
      | intros ? Hs ? ? Hu; rewrite (proj1 (getRoomState_frame _ _)); by apply Hs
      | intros ? Hs; rewrite updateRoomState_run; intros ? ? Hu;
        cbn [snd users set_room_state set_tick];
        rewrite (proj1 (getRoomState_frame _ _)); by apply Hs
      | intros ? Hs; exact Hs
      | apply preserves_modify; intros ? Hs; exact Hs
      | apply preserves_modify; intros s1 Hs; eapply keeps_users_trans; [exact Hs|];
        intros id0 u0 Hu0; cbn [users set_users]; rewrite lookup_alter;
        case_decide; [subst; rewrite Hu0; eexists; split; [reflexivity|]; auto
                     | exists u0; auto] ]).
Qed.

(** X13.  Along any run a user, once in the table, stays in it under the
    same id with the same address; the [is_admin] flag is only ever set to
    1, never lowered: no request revokes a privilege or deletes a user. *)
Theorem users_are_never_removed (evs : list Event) (s : Server) :
  keeps_users s (run evs s).
Proof.
  revert s. induction evs as [|ev evs IH]; intros s; [apply keeps_users_refl|].
  change (run (ev :: evs) s) with (run evs (handle ev s).2).
  eapply keeps_users_trans; [|apply IH].
  apply (handle_keeps_users s ev s), keeps_users_refl.
Qed.

(** X14.  Only an invite acceptance adds a user: after any other event
    the user table has exactly the ids it had.  In particular a login with
    an address that is not in the table is refused and leaves the server as
    it was (login is invite-only). *)
Theorem only_acceptance_adds_users (ev : Event) (s : Server) :
  (∀ body_token body_email sessionToken,
     ev ≠ PostInvitesAccept body_token body_email sessionToken) →
  dom (users (handle ev s).2) = dom (users s) ∧
  ∀ body_email sessionToken,
    ev = PostLogin body_email sessionToken →
    select_user_by_email (users s) (normalized body_email) = None →
    (handle ev s).2 = s ∧
    ∃ status error, api_auth_login body_email sessionToken s = (JsonError status error, s).
Proof.
  intros Hev. split.
  - enough (Hp : preserves (λ s', dom (users s') = dom (users s)) (handle ev)) by (by apply Hp).
    destruct ev; try (by destruct (Hev body_token body_email sessionToken));
      unfold handle; open_routes;
      preserves_with ltac:(first
        [ intros ? Hs; rewrite send_each_run; exact Hs
        | intros ? Hs; rewrite (proj1 (getRoomState_frame _ _)); exact Hs
        | intros ? Hs; rewrite updateRoomState_run; cbn [snd users set_room_state set_tick];
          rewrite (proj1 (getRoomState_frame _ _)); exact Hs
        | intros ? Hs; exact Hs
        | apply preserves_modify; intros ? Hs; exact Hs
        | apply preserves_modify; intros ? Hs; cbn [users set_users];
          rewrite dom_alter_L; exact Hs ]).
  - intros body_email sessionToken -> Hnone. unfold handle.
    rewrite bind_run, api_auth_login_run, Hnone.
    destruct (String.eqb (normalized body_email) ""); cbn [ret snd]; split; eauto.
Qed.

(** [open_session] leaves the invites alone. *)
Lemma open_session_invites (id : Z) (sessionToken : string) (s : Server) :
  invites (open_session id sessionToken s).2 = invites s.
Proof. rewrite open_session_run. by destruct (sessions s !! sessionToken). Qed.

(** What an acceptance does to an invite that is in the table. *)
Lemma accept_uses (body_token body_email : option string) (sessionToken t : string)
    (s : Server) (i : InviteRow) :
  invites s !! t = Some i →
  let result := api_invites_accept body_token body_email sessionToken s in
  ∃ i', invites result.2 !! t = Some i' ∧
        uses_remaining i' ≤ uses_remaining i ∧
        (String_trim (Js.coalesce body_token "") = t →
         (∃ c, result.1 = JsonOkSetCookie c) →
         0 < uses_remaining i ∧ uses_remaining i' = uses_remaining i - 1).
Proof.
  intros Hi result. subst result. rewrite api_invites_accept_run. cbv zeta.
  set (token := String_trim (Js.coalesce body_token "")).
  set (e := normalized body_email).
  assert (Hsame : ∃ i', invites s !! t = Some i' ∧ uses_remaining i' ≤ uses_remaining i)
    by (exists i; split; [done|lia]).
  destruct (String.eqb token "" || String.eqb e "").
  { destruct Hsame as (i' & ? & ?). exists i'. split; [done|]. split; [done|].
    intros _ [c Hc]. discriminate Hc. }
  destruct (invites s !! token) as [invite|] eqn:Einv.
  2: { destruct Hsame as (i' & ? & ?). exists i'. split; [done|]. split; [done|].
    intros _ [c Hc]. discriminate Hc. }
  destruct (Js.truthy_str (invite_email invite)
            && negb (bool_decide (invite_email invite = Some e))).
  { destruct Hsame as (i' & ? & ?). exists i'. split; [done|]. split; [done|].
    intros _ [c Hc]. discriminate Hc. }
  set (s1 := match invite_expires_at invite with Some _ => set_tick S s | None => s end).
  assert (Hinv1 : invites s1 = invites s) by (unfold s1; by destruct (invite_expires_at invite)).
  destruct (match invite_expires_at invite with Some t0 => t0 <? clock (tick s) | None => false end).
  { exists i. cbn [fst snd]. rewrite Hinv1. split; [done|]. split; [lia|].
    intros _ [c Hc]. discriminate Hc. }
  destruct (uses_remaining invite <=? 0) eqn:Euses.
  { exists i. cbn [fst snd]. rewrite Hinv1. split; [done|]. split; [lia|].
    intros _ [c Hc]. discriminate Hc. }
  apply Z.leb_gt in Euses.
  assert (Hacc : ∃ i', invites (accepted token e s1) !! t = Some i' ∧
            uses_remaining i' ≤ uses_remaining i ∧
            (token = t → 0 < uses_remaining i ∧ uses_remaining i' = uses_remaining i - 1)).
  { unfold accepted. cbn [invites set_invites set_users set_tick]. rewrite Hinv1, lookup_alter.
    destruct (decide (token = t)) as [Heq|Hne].
    - rewrite Heq in Einv. rewrite Einv in Hi. injection Hi as ->. rewrite Heq, Einv.
      eexists. split; [reflexivity|]. cbn [uses_remaining]. split; [lia|]. intros _. lia.
    - exists i. split; [done|]. split; [lia|]. done. }
  destruct Hacc as (i' & Hi' & Hle & Hdec).
  destruct (select_user_by_email (users (accepted token e s1)) e) as [[id u]|].
  - exists i'. rewrite open_session_invites. split; [done|]. split; [done|].
    intros Ht _. by apply Hdec.
  - exists i'. split; [done|]. split; [done|]. intros _ [c Hc]. discriminate Hc.
Qed.

Lemma insert_invite_keeps (t token : string) (row i : InviteRow) :
  preserves (λ s, invites s !! t = Some i) (insert_invite token row).
Proof.
  intros s Hi. unfold insert_invite. rewrite bind_run. cbn [gets fst snd].
  destruct (invites s !! token) eqn:E; [exact Hi|].
  rewrite bind_run. cbn [modify ret snd invites set_invites].
  rewrite lookup_insert_ne; [exact Hi|]. intros ->. congruence.
Qed.

(** An event that is no acceptance leaves an invite as it is. *)
Lemma other_events_keep_invite (t : string) (i : InviteRow) (ev : Event) :
  (∀ body_token body_email sessionToken,
     ev ≠ PostInvitesAccept body_token body_email sessionToken) →
  preserves (λ s, invites s !! t = Some i) (handle ev).
Proof.
  intros Hev.
  destruct ev; try (by destruct (Hev body_token body_email sessionToken));
    unfold handle, api_me, api_videos, api_room_state, api_room_set_video, api_auth_login,
      api_auth_logout, api_invites_create, api_invites, ws_connect, ws_message, ws_open,
      ws_close, cli_invite, open_session, insert_session, requireAdmin, requireAuth,
      getSession, state_message, ensureRoomSockets, broadcastRoom, send, nowIso;
    cbv zeta;
    preserves_with ltac:(first
      [ apply insert_invite_keeps
      | intros ? Hs; rewrite send_each_run; exact Hs
      | intros ? Hs; rewrite (proj1 (proj2 (proj2 (getRoomState_frame _ _)))); exact Hs
      | intros ? Hs; rewrite updateRoomState_run; cbn [snd invites set_room_state set_tick];
        rewrite (proj1 (proj2 (proj2 (getRoomState_frame _ _)))); exact Hs
      | intros ? Hs; exact Hs
      | apply preserves_modify; intros ? Hs; exact Hs ]).
Qed.

(** X15.  An invite admits no more successful acceptances than it has uses
    left: along any run, the acceptances of an invite that succeed number
    at most its [uses_remaining] (one, for the invites the server and the
    command-line tool create). *)
Theorem invite_uses_bound_acceptances
    (t : string) (evs : list Event) (s : Server) (i : InviteRow) :
  invites s !! t = Some i →
  (acceptances t evs s ≤ Z.to_nat (uses_remaining i))%nat.
Proof.
  revert s i. induction evs as [|ev evs IH]; intros s i Hi; [simpl; lia|].
  cbn [acceptances].
  assert (Hcase : (∃ bt be tok, ev = PostInvitesAccept bt be tok) ∨
                  (∀ bt be tok, ev ≠ PostInvitesAccept bt be tok)).
  { destruct ev; try (right; intros; discriminate). left. eauto. }
  destruct Hcase as [(bt & be & tok & ->)|Hother].
  - destruct (accept_uses bt be tok t s i Hi) as (i' & Hi' & Hle & Hdec).
    assert (Hstate : (handle (PostInvitesAccept bt be tok) s).2
                     = (api_invites_accept bt be tok s).2).
    { unfold handle. by rewrite bind_run. }
    rewrite Hstate. specialize (IH _ i' Hi').
    destruct (String.eqb (String_trim (Js.coalesce bt "")) t) eqn:Et; [|lia].
    apply String.eqb_eq in Et.
    destruct (api_invites_accept bt be tok s).1 eqn:Eresp; try lia.
    destruct (Hdec Et) as [Hpos Hone]; [eauto|]. lia.
  - pose proof (other_events_keep_invite t i ev Hother s Hi) as Hi'.
    specialize (IH _ i Hi'). destruct ev; try lia.
    by destruct (Hother body_token body_email sessionToken).
Qed.

Lemma upserted_unique (table : gmap Z UserRow) (e : string) (now : Z) (s : Server) :
  users s = table →
  emails_unique s → emails_unique (set_users (λ _, upserted table e now) s).
Proof.
  intros <- Hs i j u v. cbn [users set_users]. unfold upserted.
  destruct (select_user_by_email (users s) e) eqn:E.
  - rewrite !lookup_fmap.
    destruct (users s !! i) as [u0|] eqn:Ei; [|discriminate].
    destruct (users s !! j) as [v0|] eqn:Ej; [|discriminate].
    simpl. intros [= <-] [= <-] He. apply (Hs i j u0 v0 Ei Ej).
    by destruct (String.eqb (email u0) e), (String.eqb (email v0) e).
  - rewrite !lookup_insert.
    destruct (decide (next_rowid (users s) = i)), (decide (next_rowid (users s) = j));
      [congruence| | |by apply Hs].
    + intros [= <-] Hv He. symmetry in He.
      by destruct (select_user_by_email_None (users s) e j v E Hv).
    + intros Hu [= <-] He.
      by destruct (select_user_by_email_None (users s) e i u E Hu).
Qed.

Lemma upsertUser_unique (e : string) : preserves emails_unique (upsertUser e true).
Proof.
  intros s Hs. rewrite upsertUser_run. cbn [snd].
  apply (upserted_unique (users s) e (clock (tick s)) (set_tick S s)); [reflexivity|exact Hs].
Qed.

Lemma alter_is_admin_unique (id : Z) (s : Server) :
  emails_unique s → emails_unique (set_users (alter (set_is_admin 1) id) s).
Proof.
  intros Hs.
  assert (Hold : ∀ k u, alter (set_is_admin 1) id (users s) !! k = Some u →
            ∃ u0, users s !! k = Some u0 ∧ email u0 = email u).
  { intros k u. rewrite lookup_alter. case_decide; [|by exists u].
    subst. destruct (users s !! k) as [u0|]; [|discriminate].
    simpl. intros [= <-]. by exists u0. }
  intros i j u v Hu Hv He. cbn [users set_users] in Hu, Hv.
  destruct (Hold i u Hu) as (u0 & Hu0 & Heu). destruct (Hold j v Hv) as (v0 & Hv0 & Hev).
  apply (Hs i j u0 v0 Hu0 Hv0). congruence.
Qed.

Lemma handle_emails_unique (ev : Event) : preserves emails_unique (handle ev).
Proof.
  destruct ev; unfold handle; open_routes;
    preserves_with ltac:(first
      [ apply upsertUser_unique
      | intros ? Hs; rewrite send_each_run; exact Hs
      | intros ? Hs ? ? ? ?; rewrite (proj1 (getRoomState_frame _ _)); apply Hs
      | intros ? Hs; rewrite updateRoomState_run; intros ? ? ? ?;
        cbn [snd users set_room_state set_tick];
        rewrite (proj1 (getRoomState_frame _ _)); apply Hs
      | intros ? Hs; exact Hs
      | apply preserves_modify; intros ? Hs; exact Hs
      | apply preserves_modify; intros ? Hs; by apply alter_is_admin_unique ]).
Qed.

Lemma upsert_each_unique (emails : list string) : preserves emails_unique (upsert_each emails).
Proof.
  induction emails as [|e rest IH]; simpl; [apply preserves_ret|].
  apply preserves_bind; [apply upsertUser_unique | intros _; exact IH].
Qed.

(** X16.  No two users ever share an address: start-up seeding and every
    event keep the addresses of the user table distinct, so the UNIQUE
    constraint on [users.email] is never what stops a request. *)
Theorem emails_stay_unique
    (NODE_ENV : string) (TEST_USERS ADMIN_EMAILS : list string)
    (evs : list Event) (s : Server) :
  emails_unique s →
  emails_unique (run evs (seedUsers NODE_ENV TEST_USERS ADMIN_EMAILS s).2).
Proof.
  intros Hs.
  assert (Hseed : emails_unique (seedUsers NODE_ENV TEST_USERS ADMIN_EMAILS s).2).
  { unfold seedUsers. cbv zeta. revert s Hs.
    apply preserves_bind; [apply upsert_each_unique | intros _; apply upsert_each_unique]. }
  revert Hseed. generalize (seedUsers NODE_ENV TEST_USERS ADMIN_EMAILS s).2. clear s Hs.
  induction evs as [|ev evs IH]; intros s Hs; [exact Hs|].
  apply IH. by apply handle_emails_unique.
Qed.

Lemma upserted_present (table : gmap Z UserRow) (e : string) (now : Z) :
  ∃ id u, upserted table e now !! id = Some u ∧ email u = e ∧ is_admin u = 1.
Proof.
  unfold upserted. destruct (select_user_by_email table e) as [[id u0]|] eqn:E.
  - apply select_user_by_email_Some in E as [Hrow He].
    exists id, (set_is_admin 1 u0). rewrite lookup_fmap, Hrow. simpl.
    rewrite (proj2 (String.eqb_eq _ _) He). by repeat split.
  - eexists _, _. rewrite lookup_insert_eq. by repeat split.
Qed.

Lemma upsert_each_keeps (emails : list string) (s0 : Server) :
  preserves (keeps_users s0) (upsert_each emails).
Proof.
  induction emails as [|e rest IH]; simpl; [apply preserves_ret|].
  apply preserves_bind; [|intros _; exact IH].
  intros s Hs. rewrite upsertUser_run. eapply keeps_users_trans; [exact Hs|].
  intros ? ? ?. by apply upserted_keeps.
Qed.

Lemma kept_administrator (s s' : Server) (e : string) :
  keeps_users s s' →
  (∃ id u, users s !! id = Some u ∧ email u = e ∧ is_admin u = 1) →
  ∃ id u, users s' !! id = Some u ∧ email u = e ∧ is_admin u = 1.
Proof.
  intros Hk (id & u & Hu & He & Ha).
  destruct (Hk id u Hu) as (u' & Hu' & He' & _ & Ha').
  exists id, u'. repeat split; [done|congruence|]. destruct Ha'; congruence.
Qed.

Lemma upsert_each_administrators (emails : list string) (s : Server) (e : string) :
  e ∈ emails →
  ∃ id u, users (upsert_each emails s).2 !! id = Some u ∧ email u = e ∧ is_admin u = 1.
Proof.
  revert s. induction emails as [|e0 rest IH]; intros s Hin; [by apply elem_of_nil in Hin|].
  simpl. rewrite bind_run.
  apply elem_of_cons in Hin as [->|Hin]; [|by apply IH].
  eapply kept_administrator.
  - apply (upsert_each_keeps rest (upsertUser e0 true s).2), keeps_users_refl.
  - rewrite upsertUser_run. cbn [snd users set_users set_tick]. apply upserted_present.
Qed.

(** X17.  After start-up seeding, every address of ADMIN_EMAILS and of
    TEST_USERS (and, outside production with no TEST_USERS configured, each
    of the three example addresses) belongs to a user whose [is_admin] is
    1, whatever the table held before. *)
Theorem seedUsers_makes_administrators
    (NODE_ENV : string) (TEST_USERS ADMIN_EMAILS : list string) (s : Server) (e : string) :
  e ∈ ADMIN_EMAILS ∨ e ∈ TEST_USERS ∨
  (NODE_ENV ≠ "production" ∧ TEST_USERS = [] ∧
   e ∈ ["admin@example.com"; "user1@example.com"; "user2@example.com"]) →
  ∃ id u, users (seedUsers NODE_ENV TEST_USERS ADMIN_EMAILS s).2 !! id = Some u ∧
          email u = e ∧ is_admin u = 1.
Proof.
  intros He. unfold seedUsers. cbv zeta. rewrite bind_run.
  destruct He as [Hadmin|Htest]; [by apply upsert_each_administrators|].
  eapply kept_administrator.
  - apply (upsert_each_keeps ADMIN_EMAILS), keeps_users_refl.
  - apply upsert_each_administrators.
    destruct Htest as [Hin|(Henv & -> & Hin)].
    + destruct (negb (String.eqb NODE_ENV "production") && (length TEST_USERS =? 0)%nat);
        [apply elem_of_app; by left | done].
    + apply String.eqb_neq in Henv. rewrite Henv. exact Hin.
Qed.

End SessionsMore.

(* ===================================================================== *)
(** * Further properties of the reconciler                                *)
(* ===================================================================== *)

Module ReconcilerMore.
Import Client.

Section Script.
Context `{Clock} `{Browser}.

(** A listener that finds the reconciler suppressing reads the clock and
    returns. *)
Lemma listeners_suppressed (c : State) :
  applyingRemote c = false →
  clock (reads c) < ignoreEventsUntil c →
  (on_play c).2 = set_reads S c ∧ (on_pause c).2 = set_reads S c ∧
  (on_seeked c).2 = set_reads S c ∧ (on_ratechange c).2 = set_reads S c.
Proof.
  intros Hidle Hlt. apply Z.ltb_lt in Hlt.
  unfold on_play, on_pause, on_seeked, on_ratechange. rewrite !bind_run.
  cbn [gets fst snd]. rewrite Hidle. unfold Date_now, bind, gets.
  cbn [fst snd ignoreEventsUntil set_reads]. by rewrite Hlt.
Qed.

(** An idle reconciler reads the clock on every event of the element. *)
Lemma listeners_read (c : State) :
  applyingRemote c = false →
  (reads c < reads (on_play c).2)%nat ∧ (reads c < reads (on_pause c).2)%nat ∧
  (reads c < reads (on_seeked c).2)%nat ∧ (reads c < reads (on_ratechange c).2)%nat.
Proof.
  intros Hidle.
  split; [|split; [by apply Reconciler.on_pause_reads|split]];
    unfold on_play, on_seeked, on_ratechange;
    rewrite bind_run; cbn [gets fst snd]; rewrite Hidle;
    unfold Date_now, bind, gets; cbn [fst snd ignoreEventsUntil set_reads];
    (destruct (clock (reads c) <? ignoreEventsUntil c); [simpl; lia|]);
    unfold sendAction, bind, gets, modify, ret; cbn [fst snd ws_ready set_reads];
    destruct (ws_ready c); simpl; lia.
Qed.

Lemma quiet_step (k0 : nat) (ev : Event) (c : State) :
  (∀ i j : nat, (i ≤ j)%nat → clock i ≤ clock j) →
  from_element ev →
  suppressing k0 c →
  ((reads c < reads (handle ev c).2)%nat → clock (reads c) < clock k0 + 600) →
  suppressing k0 (handle ev c).2 ∧ sent (handle ev c).2 = sent c.
Proof.
  intros Hmono [Hback Hforward] Hc Hclock.
  assert (Hlistener : ∀ m : ST State unit,
            handle ev = m →
            (reads c < reads (m c).2)%nat →
            (clock (reads c) < ignoreEventsUntil c → (m c).2 = set_reads S c) →
            suppressing k0 (m c).2 ∧ sent (m c).2 = sent c).
  { intros m Hm Hreads Hsupp. rewrite Hm in Hclock. specialize (Hclock Hreads).
    destruct Hc as (Hidle & k & Hk & Hdead).
    assert (Hnow : clock (reads c) < ignoreEventsUntil c).
    { rewrite Hdead. pose proof (Hmono k0 k). lia. }
    rewrite (Hsupp Hnow). split; [|reflexivity].
    split; [exact Hidle|]. exists k. simpl. split; [lia|exact Hdead]. }
  pose proof (listeners_read c (proj1 Hc)) as (Hr1 & Hr2 & Hr3 & Hr4).
  destruct ev; try done.
  - destruct (Reconciler.applyState_calm k0 data c Hc) as (Hs & _ & _).
    split; [exact Hs|]. unfold handle. rewrite Reconciler.applyState_run. cbv zeta.
    cbn [snd sent set_ignoreEventsUntil set_reads set_applyingRemote].
    apply (Reconciler.applying_quiet data c c). by split.
  - apply (Hlistener on_play); [done|done|].
    intros Hlt. by apply (listeners_suppressed c (proj1 Hc) Hlt).
  - apply (Hlistener on_pause); [done|done|].
    intros Hlt. by apply (listeners_suppressed c (proj1 Hc) Hlt).
  - apply (Hlistener on_seeked); [done|done|].
    intros Hlt. by apply (listeners_suppressed c (proj1 Hc) Hlt).
  - apply (Hlistener on_ratechange); [done|done|].
    intros Hlt. by apply (listeners_suppressed c (proj1 Hc) Hlt).
Qed.

(** X18.  Echo suppression covers every event of the element: after a
    state message has been applied, whatever events the element fires
    (play, pause, seeked, ratechange) and whatever further state messages
    arrive, nothing at all is sent while the clock reads before the
    deadline the application set.  Only the two seek buttons send in that
    window. *)
Theorem no_echo_within_window (data : Data) (c : State) (evs : list Event) :
  (∀ i j : nat, (i ≤ j)%nat → clock i ≤ clock j) →
  Forall from_element evs →
  let c1 := (applyState data c).2 in
  (∀ n, (n < reads (run evs c1))%nat → clock n < ignoreEventsUntil c1) →
  sent (run evs c1) = sent c.
Proof.
  intros Hmono Hevs c1 Hclock.
  destruct (Reconciler.applying_quiet data c c) as [Hsent Hreads]; [by split|].
  assert (Hc1 : c1 = set_ignoreEventsUntil (clock (reads (applying data c).2) + 600)
                       (set_reads S (set_applyingRemote false (applying data c).2))).
  { unfold c1. by rewrite Reconciler.applyState_run. }
  set (k0 := reads (applying data c).2) in *.
  assert (Hs : suppressing k0 c1).
  { rewrite Hc1. split; [reflexivity|]. exists k0. simpl. split; [lia|reflexivity]. }
  assert (Hdead : ignoreEventsUntil c1 = clock k0 + 600) by (by rewrite Hc1).
  rewrite Hdead in Hclock.
  transitivity (sent c1); [|by rewrite Hc1].
  clear Hc1 Hdead. revert Hs Hclock. generalize c1. clear c1.
  induction Hevs as [|ev evs Hev Hevs IH]; intros c1 Hs Hclock; [reflexivity|].
  change (run (ev :: evs) c1) with (run evs (handle ev c1).2) in *.
  destruct (quiet_step k0 ev c1 Hmono Hev Hs) as [Hs' Hsent'].
  { intros Hr. apply Hclock.
    pose proof (Reconciler.run_reads evs (handle ev c1).2). lia. }
  rewrite (IH _ Hs' Hclock). exact Hsent'.
Qed.


(** The kinds the script sends. *)
Lemma handle_sent_kinds (ev : Event) :
  preserves (λ c, Forall (λ a, action a ∈ ["play"; "pause"; "seek"; "rate"]) (sent c))
    (handle ev).
Proof.
  assert (Hsend : ∀ kind, kind ∈ ["play"; "pause"; "seek"; "rate"] →
            preserves (λ c, Forall (λ a, action a ∈ ["play"; "pause"; "seek"; "rate"]) (sent c))
              (sendAction kind)).
  { intros kind Hkind c Hc. unfold sendAction. rewrite bind_run. cbn [gets fst snd].
    destruct (ws_ready c); [|exact Hc]. rewrite bind_run. cbn [gets modify fst snd sent set_sent].
    apply Forall_app. split; [exact Hc|]. apply Forall_cons_2; [exact Hkind|apply Forall_nil_2]. }
  destruct ev; unfold handle;
    [ intros c0 Hc; rewrite Reconciler.applyState_run; cbv zeta;
      cbn [snd sent set_ignoreEventsUntil set_reads set_applyingRemote];
      by rewrite (proj1 (Reconciler.applying_quiet data c0 c0 (conj eq_refl (le_n _)))) | .. ];
    unfold on_play, on_pause, on_seeked, on_ratechange, on_seekBack, on_seekForward,
      assign_currentTime, call;
    preserves_with ltac:(first
      [ apply Hsend; apply (bool_decide_unpack _); exact I
      | apply preserves_modify; intros ? Hs; exact Hs
      | intros ? Hs; exact Hs ]).
Qed.

End Script.



Section Source.
Context `{Clock} `{Browser}.

(** X22.  A state message for the video already loaded makes no call on
    the source of the element: the source and [currentVideo] are as
    before, and the calls it adds set the rate, seek, pause or play. *)
Theorem same_video_keeps_source (data : Data) (c : State) :
  videoPath data = currentVideo c →
  let c' := (applyState data c).2 in
  src (el c') = src (el c) ∧ currentVideo c' = currentVideo c ∧
  ∃ new, calls c' = calls c ++ new ∧ Forall leaves_source new.
Proof.
  intros Hsame c'.
  set (Inv := λ c0 : State, src (el c0) = src (el c) ∧ currentVideo c0 = currentVideo c ∧
              ∃ new, calls c0 = calls c ++ new ∧ Forall leaves_source new).
  assert (Hcall : ∀ what effect, leaves_source what → (∀ v, src (effect v) = src v) →
            preserves Inv (call what effect)).
  { intros what effect Hwhat Heffect c0 (Hsrc & Hcur & new & Hcalls & Hnew).
    unfold call. rewrite bind_run. cbn [modify snd]. split; [|split; [exact Hcur|]].
    - cbn [el set_el set_calls]. by rewrite Heffect.
    - exists (new ++ [what]). cbn [calls set_el set_calls]. rewrite Hcalls, <- app_assoc.
      split; [reflexivity|]. apply Forall_app. split; [exact Hnew|].
      apply Forall_cons_2; [exact Hwhat|apply Forall_nil_2]. }
  enough (Hp : preserves Inv (applyState data)).
  { apply Hp. split; [done|split; [done|]]. exists []. by rewrite app_nil_r. }
  unfold applyState, switch_video. rewrite Hsame.
  unfold sync_playback, elapsed_seconds, assign_playbackRate, assign_currentTime,
    call_pause, call_play. cbv zeta.
  apply preserves_bind; [apply preserves_modify; intros ? Hs; exact Hs|intros _].
  apply preserves_bind.
  { intros c0 Hc0. rewrite bind_run. cbn [gets fst snd].
    destruct Hc0 as (Hsrc & Hcur & Hrest).
    rewrite Hcur, bool_decide_eq_false_2 by (intros Hne; by apply Hne).
    by split. }
  intros _.
  preserves_with ltac:(first
    [ apply Hcall; [exact I | intros ?; reflexivity]
    | apply preserves_modify; intros ? Hs; exact Hs
    | intros ? Hs; exact Hs ]).
Qed.

End Source.
End ReconcilerMore.

Section Wire.
Context `{Clock} `{Client.Browser} `{ServerEnv}.

(** X20.  Whatever happens to the script, every action it has sent is one
    the hub acts on: its kind is play, pause, seek or rate (the script
    never sends sync), which the hub's list of kinds contains. *)
Theorem sent_actions_are_accepted (evs : list Client.Event) (v : Client.Video) :
  Forall (λ a, Client.action a ∈ ["play"; "pause"; "seek"; "rate"] ∧
               is_accepted_action (Client.on_the_wire a))
    (Client.sent (Client.run evs (Client.initial v))).
Proof.
  assert (Hkinds : Forall (λ a, Client.action a ∈ ["play"; "pause"; "seek"; "rate"])
                     (Client.sent (Client.run evs (Client.initial v)))).
  { generalize (Client.initial v), (Forall_nil_2 (λ a, Client.action a ∈ ["play"; "pause"; "seek"; "rate"])
                                : Forall _ (Client.sent (Client.initial v))).
    induction evs as [|ev evs IH]; intros c Hc; [exact Hc|].
    apply IH. by apply ReconcilerMore.handle_sent_kinds. }
  eapply Forall_impl; [exact Hkinds|]. intros a Ha. split; [exact Ha|].
  exists (mkPayload (Js.Str "action") (Js.Str (Client.action a))
            (Client.json_number (Client.action_position a))
            (Client.json_number (Client.action_playbackRate a))),
         (Client.action a).
  repeat split. unfold action_kinds.
  repeat (apply elem_of_cons in Ha as [->|Ha]; [apply (bool_decide_unpack _); exact I|]).
  by apply elem_of_nil in Ha.
Qed.

(** X21.  The hub applies what the script sent: the room takes the
    position and the rate of the action and, for play and pause, its pause
    state, and keeps its video.  A number that is not finite goes over the
    wire as null, which the hub reads as its default: a position that is
    not finite sets the room to 0, a rate that is not finite sets its rate
    to 1. *)
Theorem hub_applies_sent_action (a : Client.Action) (ws : Socket) (r : string) (s : Server) :
  Client.action a ∈ ["play"; "pause"; "seek"; "rate"] →
  let prior := (getRoomState r s).1 in
  let s' := (ws_message ws r (Client.on_the_wire a) s).2 in
  ∃ next,
    room_state s' !! r = Some next ∧
    video_path next = video_path prior ∧
    paused next = (if String.eqb (Client.action a) "pause" then 1
                   else if String.eqb (Client.action a) "play" then 0 else paused prior) ∧
    position next = (if Js.isFinite (Client.action_position a)
                     then (if is_zero (Client.action_position a) then zero
                           else Client.action_position a)
                     else zero) ∧
    playback_rate next = (if Js.isFinite (Client.action_playbackRate a)
                          then (if is_zero (Client.action_playbackRate a) then zero
                                else Client.action_playbackRate a)
                          else one).
Proof.
  intros Ha prior s'. subst s'.
  assert (Hkind : Client.action a ∈ action_kinds).
  { unfold action_kinds.
    repeat (apply elem_of_cons in Ha as [->|Ha]; [apply (bool_decide_unpack _); exact I|]).
    by apply elem_of_nil in Ha. }
  set (p := mkPayload (Js.Str "action") (Js.Str (Client.action a))
              (Client.json_number (Client.action_position a))
              (Client.json_number (Client.action_playbackRate a))).
  change (Client.on_the_wire a) with (Object p).
  rewrite (ws_message_accepted ws r p s (Client.action a) eq_refl eq_refl Hkind). fold prior.
  cbn [snd room_state set_outbox set_room_state set_tick]. rewrite lookup_insert_eq.
  eexists. split; [reflexivity|]. cbn [video_path playback_rate paused position].
  assert (Hread : ∀ x d : float, Js.isFinite d = true →
            let y := Js.Number StringToNumber (Js.nullish (Client.json_number x) (Js.Num d)) in
            Js.isFinite y = true ∧
            y = if Js.isFinite x then (if is_zero x then zero else x) else d).
  { intros x d Hd. unfold Client.json_number. destruct (Js.isFinite x) eqn:Ex; [|by split].
    cbn [Js.nullish Js.Number]. split; [|reflexivity]. by destruct (is_zero x). }
  unfold read_position, read_playbackRate, p. cbn [payload_position payload_playbackRate].
  destruct (Hread (Client.action_position a) zero eq_refl) as [-> ->].
  destruct (Hread (Client.action_playbackRate a) one eq_refl) as [-> ->].
  by repeat split.
Qed.

End Wire.

(* ===================================================================== *)
(** * Properties of the page helpers                                      *)
(* ===================================================================== *)

Module PageProperties.
Import Page.

Lemma String_app_cons (c : Ascii.ascii) (s t : string) : String c s +:+ t = String c (s +:+ t).
Proof. reflexivity. Qed.

Lemma String_app_nil (t : string) : "" +:+ t = t.
Proof. reflexivity. Qed.

Lemma String_take_drop (n : nat) (s : string) : String_take n s +:+ String_drop n s = s.
Proof.
  revert s. induction n as [|n IH]; intros [|c s]; cbn [String_take String_drop]; try reflexivity.
  by rewrite String_app_cons, IH.
Qed.

Lemma String_length_take (n : nat) (s : string) :
  String.length (String_take n s) = Nat.min n (String.length s).
Proof.
  revert s. induction n as [|n IH]; intros [|c s]; simpl; try reflexivity. by rewrite IH.
Qed.

Lemma String_length_drop (n : nat) (s : string) :
  String.length (String_drop n s) = (String.length s - n)%nat.
Proof.
  revert s. induction n as [|n IH]; intros [|c s]; simpl; try reflexivity. by rewrite IH.
Qed.

Lemma String_take_all (n : nat) (s : string) : (String.length s ≤ n)%nat → String_take n s = s.
Proof.
  revert s. induction n as [|n IH]; intros [|c s]; simpl; try reflexivity; try lia.
  intros Hle. rewrite IH; [reflexivity|lia].
Qed.

Lemma String_length_app (s t : string) :
  String.length (s +:+ t) = (String.length s + String.length t)%nat.
Proof. induction s as [|c s IH]; [reflexivity|]. rewrite String_app_cons. simpl. by rewrite IH. Qed.

(** The two slices [truncateMiddle] takes of a value longer than both. *)
Lemma truncateMiddle_long (value : string) (front back : Z) :
  0 ≤ front → 0 < back →
  front + back + 3 < Z.of_nat (String.length value) →
  ∃ a m b, value = a +:+ m +:+ b ∧
    Z.of_nat (String.length a) = front ∧ Z.of_nat (String.length b) = back ∧
    truncateMiddle value front back = a +:+ "..." +:+ b.
Proof.
  intros Hfront Hback Hlong.
  assert (Hne : String.eqb value "" = false).
  { destruct value; [simpl in Hlong; lia|reflexivity]. }
  set (len := Z.of_nat (String.length value)) in *.
  exists (String_take (Z.to_nat front) value),
         (String_take (Z.to_nat (len - back - front)) (String_drop (Z.to_nat front) value)),
         (String_drop (Z.to_nat (len - back)) value).
  split; [|split; [|split]].
  - assert (Hb : String_drop (Z.to_nat (len - back)) value
                 = String_drop (Z.to_nat (len - back - front)) (String_drop (Z.to_nat front) value)).
    { replace (Z.to_nat (len - back)) with (Z.to_nat front + Z.to_nat (len - back - front))%nat
        by lia.
      generalize (Z.to_nat (len - back - front)). generalize value.
      induction (Z.to_nat front) as [|n IH]; intros [|c s] k; simpl; try reflexivity.
      - by destruct k.
      - apply IH. }
    by rewrite Hb, String_take_drop, String_take_drop.
  - rewrite String_length_take. unfold len in *. lia.
  - rewrite String_length_drop. unfold len in *. lia.
  - unfold truncateMiddle.
    rewrite Hne. fold len. rewrite (proj2 (Z.leb_gt _ _)) by lia.
    unfold String_slice, slice_index. fold len.
    rewrite (proj2 (Z.ltb_ge 0 0)), (proj2 (Z.ltb_ge front 0)), (proj2 (Z.ltb_lt (- back) 0))
      by lia.
    replace (Z.to_nat (Z.min 0 len)) with 0%nat by lia.
    replace (Z.min front len - Z.min 0 len) with front by lia.
    replace (Z.max (len + - back) 0) with (len - back) by lia.
    replace (len - (len - back)) with back by lia.
    change (String_drop 0 value) with value.
    rewrite (String_take_all (Z.to_nat back)); [reflexivity|].
    rewrite String_length_drop. unfold len. lia.
Qed.


(** The length of a label. *)
Lemma truncateMiddle_length (value : string) (front back : Z) :
  0 ≤ front → 0 < back →
  Z.of_nat (String.length (truncateMiddle value front back))
    = Z.min (Z.of_nat (String.length value)) (front + back + 3).
Proof.
  intros Hfront Hback.
  destruct (Z.le_gt_cases (Z.of_nat (String.length value)) (front + back + 3)) as [Hle|Hgt].
  - unfold truncateMiddle. apply Z.leb_le in Hle as Hleb. rewrite Hleb.
    destruct (String.eqb_spec value "") as [->|_]; simpl; lia.
  - destruct (truncateMiddle_long value front back Hfront Hback Hgt)
      as (a & m & b & _ & Ha & Hb & ->).
    rewrite !String_length_app. simpl. lia.
Qed.

(** X23.  A label keeps both ends of the value: a value of at most
    [front + back + 3] units is shown whole, and a longer one is replaced
    by its first [front] units, three dots and its last [back] units,
    [front + back + 3] units in all, with more than three units left
    out. *)
Theorem truncateMiddle_keeps_both_ends (value : string) (front back : Z) :
  0 ≤ front → 0 < back →
  let label := truncateMiddle value front back in
  (Z.of_nat (String.length value) ≤ front + back + 3 → label = value) ∧
  (front + back + 3 < Z.of_nat (String.length value) →
     Z.of_nat (String.length label) = front + back + 3 ∧
     ∃ a m b, value = a +:+ m +:+ b ∧
       Z.of_nat (String.length a) = front ∧ Z.of_nat (String.length b) = back ∧
       (3 < String.length m)%nat ∧ label = a +:+ "..." +:+ b).
Proof.
  intros Hfront Hback label. split.
  - intros Hle. unfold label, truncateMiddle. apply Z.leb_le in Hle. rewrite Hle.
    by destruct (String.eqb_spec value "") as [->|_].
  - intros Hlong. split.
    + unfold label. rewrite truncateMiddle_length by done. lia.
    + destruct (truncateMiddle_long value front back Hfront Hback Hlong)
        as (a & m & b & Hv & Ha & Hb & Hl).
      exists a, m, b. repeat split; try done.
      apply (f_equal String.length) in Hv. rewrite !String_length_app in Hv. lia.
Qed.

(** X24.  Truncating is idempotent: a label is short enough to be left as
    it is when truncated again with the same bounds. *)
Theorem truncateMiddle_idempotent (value : string) (front back : Z) :
  0 ≤ front → 0 < back →
  truncateMiddle (truncateMiddle value front back) front back
    = truncateMiddle value front back.
Proof.
  intros Hfront Hback.
  pose proof (truncateMiddle_length value front back Hfront Hback) as Hlen.
  generalize dependent (truncateMiddle value front back). intros label Hlen.
  unfold truncateMiddle. rewrite (proj2 (Z.leb_le _ _)) by lia.
  by destruct (String.eqb_spec label "") as [->|_].
Qed.

(** Without a positive [back] the last slice is the whole value. *)
Lemma truncateMiddle_back_0 (value : string) (front : Z) :
  0 ≤ front → front + 3 < Z.of_nat (String.length value) →
  truncateMiddle value front 0 = String_take (Z.to_nat front) value +:+ "..." +:+ value.
Proof.
  intros Hfront Hlong.
  assert (Hne : String.eqb value "" = false).
  { destruct value; [simpl in Hlong; lia|reflexivity]. }
  unfold truncateMiddle. rewrite Hne, (proj2 (Z.leb_gt _ _)) by lia.
  unfold String_slice, slice_index. change (- 0) with 0.
  rewrite (proj2 (Z.ltb_ge 0 0)), (proj2 (Z.ltb_ge front 0)) by lia.
  replace (Z.min 0 (Z.of_nat (String.length value))) with 0 by lia.
  change (String_drop (Z.to_nat 0) value) with value.
  rewrite (String_take_all (Z.to_nat (Z.of_nat (String.length value) - 0)) value) by lia.
  do 2 f_equal. lia.
Qed.



Lemma String_app_eq_nil (s t : string) : s +:+ t = "" → s = "" ∧ t = "".
Proof. destruct s; [rewrite String_app_nil; by intros ->|discriminate]. Qed.

Lemma nullable_Lang (r : RegExp) : nullable r = true ↔ Lang r "".
Proof.
  split.
  - induction r as [| |p|r1 IH1 r2 IH2|r1 IH1 r2 IH2|r IH]; simpl; try discriminate.
    + intros _. constructor.
    + intros [H1 H2]%andb_true_iff. apply (Lang_Seq r1 r2 "" ""); auto.
    + intros [H1|H2]%orb_true_iff; [apply Lang_Alt_l|apply Lang_Alt_r]; auto.
    + intros _. constructor.
  - intros HL. remember "" as s eqn:Es. revert Es.
    induction HL as [|p c Hc|r1 r2 s1 s2 H1 IH1 H2 IH2|r1 r2 s H IH|r1 r2 s H IH|r
                     |r s1 s2 H1 IH1 H2 IH2]; intros Es; simpl; try done.
    + apply String_app_eq_nil in Es as [-> ->]. by rewrite IH1, IH2.
    + by rewrite IH.
    + rewrite IH by done. apply orb_true_r.
Qed.

Lemma derivative_Lang (c : Ascii.ascii) (r : RegExp) (s : string) :
  Lang (derivative c r) s ↔ Lang r (String c s).
Proof.
  split.
  - revert s. induction r as [| |p|r1 IH1 r2 IH2|r1 IH1 r2 IH2|r IH]; intros s; simpl.
    + inversion 1.
    + inversion 1.
    + destruct (p c) eqn:Ec; inversion 1; subst. by constructor.
    + assert (Hseq : Lang (Seq (derivative c r1) r2) s → Lang (Seq r1 r2) (String c s)).
      { inversion 1; subst. rewrite <- String_app_cons. constructor; auto. }
      destruct (nullable r1) eqn:En; [|exact Hseq].
      inversion 1; subst; [by apply Hseq|].
      apply (Lang_Seq r1 r2 "" (String c s)); [by apply nullable_Lang|auto].
    + inversion 1; subst; [apply Lang_Alt_l|apply Lang_Alt_r]; auto.
    + inversion 1; subst. rewrite <- String_app_cons. constructor; auto.
  - intros HL. remember (String c s) as t eqn:Et. revert s Et.
    induction HL as [|p c' Hc|r1 r2 s1 s2 H1 IH1 H2 IH2|r1 r2 s0 H IH|r1 r2 s0 H IH|r
                     |r s1 s2 H1 IH1 H2 IH2]; intros s Et; simpl; try discriminate.
    + injection Et as -> <-. rewrite Hc. constructor.
    + destruct s1 as [|c1 s1].
      * rewrite String_app_nil in Et. subst s2.
        rewrite (proj2 (nullable_Lang r1) H1). apply Lang_Alt_r. by apply IH2.
      * rewrite String_app_cons in Et. injection Et as -> <-.
        assert (Hseq : Lang (Seq (derivative c r1) r2) (s1 +:+ s2)).
        { constructor; [by apply IH1|done]. }
        destruct (nullable r1); [by apply Lang_Alt_l|done].
    + apply Lang_Alt_l. by apply IH.
    + apply Lang_Alt_r. by apply IH.
    + destruct s1 as [|c1 s1].
      * rewrite String_app_nil in Et. by apply IH2.
      * rewrite String_app_cons in Et. injection Et as -> <-.
        constructor; [by apply IH1|done].
Qed.

(** The matcher decides the language. *)
Lemma test_Lang (r : RegExp) (s : string) : RegExp_test r s = true ↔ Lang r s.
Proof.
  revert r. induction s as [|c s IH]; intros r; simpl.
  - apply nullable_Lang.
  - rewrite IH. apply derivative_Lang.
Qed.


Lemma Lang_Class_inv (p : Ascii.ascii → bool) (s : string) :
  Lang (OneOf p) s ↔ ∃ c, s = String c "" ∧ p c = true.
Proof.
  split; [inversion 1; eauto|]. intros (c & -> & Hc). by constructor.
Qed.

Lemma Lang_Star_Class (p : Ascii.ascii → bool) (s : string) :
  Lang (Star (OneOf p)) s ↔ every p s = true.
Proof.
  split.
  - intros HL. remember (Star (OneOf p)) as r eqn:Er. revert Er.
    induction HL as [|p' c' Hc|r1 r2 s1 s2 H1 IH1 H2 IH2|r1 r2 s0 H IH|r1 r2 s0 H IH|r
                     |r s1 s2 H1 IH1 H2 IH2]; intros Er; try discriminate; [reflexivity|].
    injection Er as ->. apply Lang_Class_inv in H1 as (c & -> & Hc).
    rewrite String_app_cons, String_app_nil. simpl. by rewrite Hc, IH2.
  - induction s as [|c s IH]; simpl; [constructor|].
    intros [Hc Hs]%andb_true_iff.
    apply (Lang_Star_cons (OneOf p) (String c "") s); [by constructor|auto].
Qed.

(** [[...]+] matches the non-empty runs of the class. *)
Lemma Lang_Plus_Class (p : Ascii.ascii → bool) (s : string) :
  Lang (Plus (OneOf p)) s ↔ run_of p s.
Proof.
  unfold Plus, run_of. split.
  - inversion 1 as [| |r1 r2 s1 s2 H1 H2| | | |]; subst.
    apply Lang_Class_inv in H1 as (c & -> & Hc). apply Lang_Star_Class in H2.
    rewrite String_app_cons, String_app_nil. simpl. by rewrite Hc, H2.
  - destruct s as [|c s]; intros [Hne Hs]; [done|]. simpl in Hs.
    apply andb_true_iff in Hs as [Hc Hs].
    apply (Lang_Seq (OneOf p) (Star (OneOf p)) (String c "") s); [by constructor|].
    by apply Lang_Star_Class.
Qed.

Lemma Lang_Seq_inv (r1 r2 : RegExp) (s : string) :
  Lang (Seq r1 r2) s ↔ ∃ s1 s2, s = s1 +:+ s2 ∧ Lang r1 s1 ∧ Lang r2 s2.
Proof.
  split; [inversion 1; eauto|]. intros (s1 & s2 & -> & H1 & H2). by constructor.
Qed.

(** The parts of a string of the address pattern. *)
Lemma email_pattern_parts (value : string) :
  Lang email_pattern value →
  ∃ a b c d, value = a +:+ "@" +:+ b +:+ String backslash (String c d) ∧
    run_of not_backslash_s_at a ∧ run_of not_backslash_s_at b ∧
    dot c = true ∧ run_of not_backslash_s_at d.
Proof.
  unfold email_pattern.
  intros (a & s1 & -> & Ha & (x & s2 & -> & Hx & (b & s3 & -> & Hb &
           (y & s4 & -> & Hy & (z & d & -> & Hz & Hd)%Lang_Seq_inv)%Lang_Seq_inv
         )%Lang_Seq_inv)%Lang_Seq_inv)%Lang_Seq_inv.
  apply Lang_Class_inv in Hx as (cx & -> & Hcx), Hy as (cy & -> & Hcy), Hz as (c & -> & Hc).
  apply Ascii.eqb_eq in Hcx as <-, Hcy as <-.
  apply Lang_Plus_Class in Ha, Hb, Hd.
  exists a, b, c, d. split; [reflexivity|auto].
Qed.

Lemma has_unit_app (c : Ascii.ascii) (s t : string) :
  has_unit c (s +:+ t) = has_unit c s || has_unit c t.
Proof.
  induction s as [|c' s IH]; [reflexivity|]. rewrite String_app_cons. simpl.
  by rewrite IH, orb_assoc.
Qed.

(** X25.  The values [isValidEmail] accepts are exactly those made of a
    run of units other than the backslash, the letter s and the at sign,
    an at sign, another such run, a backslash, one unit that is no line
    terminator, and a last such run. *)
Theorem isValidEmail_accepts (value : string) :
  isValidEmail value = true ↔
  ∃ a b c d, value = a +:+ "@" +:+ b +:+ String backslash (String c d) ∧
    run_of not_backslash_s_at a ∧ run_of not_backslash_s_at b ∧
    dot c = true ∧ run_of not_backslash_s_at d.
Proof.
  unfold isValidEmail. rewrite test_Lang. split; [apply email_pattern_parts|].
  intros (a & b & c & d & -> & Ha & Hb & Hc & Hd).
  apply Lang_Plus_Class in Ha, Hb, Hd. unfold email_pattern.
  apply Lang_Seq; [done|].
  apply (Lang_Seq _ _ "@"); [constructor; apply Ascii.eqb_refl|].
  apply Lang_Seq; [done|].
  apply (Lang_Seq _ _ (String backslash "")); [constructor; apply Ascii.eqb_refl|].
  apply (Lang_Seq _ _ (String c "")); [by constructor|done].
Qed.

(** X26.  A value without a backslash is refused: the pattern asks for a
    backslash where an address has its dot, so no ordinary address passes
    the check of the invite form. *)
Theorem isValidEmail_needs_backslash (value : string) :
  has_unit backslash value = false → isValidEmail value = false.
Proof.
  intros Hno. destruct (isValidEmail value) eqn:E; [|reflexivity].
  unfold isValidEmail in E. apply test_Lang, email_pattern_parts in E
    as (a & b & c & d & -> & _).
  rewrite !has_unit_app in Hno. simpl in Hno.
  rewrite !orb_true_r in Hno. discriminate.
Qed.

End PageProperties.

(* ===================================================================== *)
(** * Properties of the cookie parser                                     *)
(* ===================================================================== *)

Module CookieProperties.
Import Stdlib.Strings.Ascii Cookies.

Lemma split_cons (sep : Ascii.ascii) (s : string) :
  ∃ piece pieces, split sep s = piece :: pieces.
Proof.
  induction s as [|c s (piece & pieces & IH)]; simpl; [eauto|].
  destruct (Ascii.eqb c sep); [eauto|]. rewrite IH. eauto.
Qed.

Lemma join_cons (sep piece : string) (pieces : list string) :
  pieces ≠ [] → join sep (piece :: pieces) = piece +:+ sep +:+ join sep pieces.
Proof. by destruct pieces. Qed.

(** Joining the pieces with the separator gives the string back. *)
Lemma join_split (sep : Ascii.ascii) (s : string) :
  join (String sep "") (split sep s) = s.
Proof.
  induction s as [|c s IH]; [reflexivity|]. simpl.
  destruct (split_cons sep s) as (piece & pieces & Hs). rewrite Hs in *.
  destruct (Ascii.eqb_spec c sep) as [->|Hne].
  - rewrite join_cons by done. by rewrite IH.
  - destruct pieces as [|piece' pieces]; simpl in *; by rewrite <- IH.
Qed.

(** The first piece ends at the first separator. *)
Lemma split_first (sep : Ascii.ascii) (key v : string) :
  Page.has_unit sep key = false →
  split sep (key +:+ String sep v) = key :: split sep v.
Proof.
  induction key as [|c key IH]; intros Hkey.
  - change ("" +:+ String sep v) with (String sep v). simpl. by rewrite Ascii.eqb_refl.
  - simpl in Hkey. apply orb_false_iff in Hkey as [Hc Hkey].
    change (String c key +:+ String sep v) with (String c (key +:+ String sep v)).
    simpl. rewrite Hc, IH by done. reflexivity.
Qed.

Section Parse.
Context `{ServerEnv} `{Uri}.

Lemma parse_part_run (cookies : gmap string string) (part : string) :
  parse_part cookies part =
    value ← cookie_value part;
    Some (if String.eqb (cookie_name part) "__proto__" then cookies
          else <[cookie_name part := value]> cookies).
Proof. reflexivity. Qed.

Lemma parse_parts_snoc (parts : list string) (part : string) :
  parse_parts (parts ++ [part]) = parse_parts parts ≫= λ cookies, parse_part cookies part.
Proof. unfold parse_parts. by rewrite foldl_snoc. Qed.

Lemma parseCookies_parts (header : string) :
  header ≠ "" → parseCookies (Some header) = parse_parts (split ";" header).
Proof.
  intros Hne. unfold parseCookies. by rewrite (proj2 (String.eqb_neq _ _) Hne).
Qed.

Lemma parse_parts_None (parts : list string) :
  parse_parts parts = None ↔ Exists (λ part, cookie_value part = None) parts.
Proof.
  induction parts as [|part parts IH] using rev_ind.
  - split; [discriminate|]. by intros ?%Exists_nil.
  - rewrite parse_parts_snoc, Exists_app, Exists_cons, Exists_nil, <- IH.
    destruct (parse_parts parts) as [cookies|]; simpl.
    + rewrite parse_part_run. destruct (cookie_value part); simpl; split; try done.
      * by intros [?|[?|?]].
      * auto.
    + split; auto.
Qed.

Lemma parse_parts_lookup (parts : list string) (cookies : gmap string string) (key : string) :
  parse_parts parts = Some cookies → key ≠ "__proto__" →
  cookies !! key = last (filter (λ part, cookie_name part = key) parts) ≫= cookie_value.
Proof.
  intros Hloop Hkey. revert cookies Hloop.
  induction parts as [|part parts IH] using rev_ind; intros cookies.
  - intros [= <-]. by rewrite lookup_empty.
  - rewrite parse_parts_snoc. destruct (parse_parts parts) as [before|]; [|discriminate]. simpl.
    rewrite parse_part_run. destruct (cookie_value part) as [value|] eqn:Evalue; [|discriminate].
    simpl. intros [= <-]. rewrite filter_app, filter_cons, filter_nil.
    destruct (decide (cookie_name part = key)) as [Hname|Hname].
    + rewrite last_snoc. simpl. rewrite Evalue, Hname.
      rewrite (proj2 (String.eqb_neq _ _) Hkey). by rewrite lookup_insert_eq.
    + rewrite app_nil_r, <- (IH before eq_refl).
      destruct (String.eqb (cookie_name part) "__proto__"); [done|].
      by rewrite lookup_insert_ne.
Qed.

(** X27.  The value of a cookie is all that follows the first equals
    sign of its part: the name is the text before it, and further equals
    signs stay in the value that is decoded and stored. *)
Theorem cookie_value_keeps_equals_signs (part key v : string) (cookies : gmap string string) :
  String_trim part = key +:+ String "=" v →
  Page.has_unit "=" key = false →
  cookie_name part = key ∧ cookie_value part = decodeURIComponent v ∧
  parse_part cookies part =
    value ← decodeURIComponent v;
    Some (if String.eqb key "__proto__" then cookies else <[key := value]> cookies).
Proof.
  intros Hpart Hkey.
  assert (Hname : cookie_name part = key).
  { unfold cookie_name. by rewrite Hpart, split_first. }
  assert (Hvalue : cookie_value part = decodeURIComponent v).
  { unfold cookie_value. rewrite Hpart, split_first by done. cbn [tail].
    by rewrite join_split. }
  split; [exact Hname|]. split; [exact Hvalue|].
  by rewrite parse_part_run, Hvalue, Hname.
Qed.

(** X28.  [parseCookies] throws exactly when the header is not empty and
    the value of one of its parts, whichever cookie it belongs to, cannot
    be decoded; otherwise it returns an object. *)
Theorem parseCookies_throws_iff (header : string) :
  parseCookies (Some header) = None ↔
  header ≠ "" ∧ Exists (λ part, cookie_value part = None) (split ";" header).
Proof.
  destruct (String.eqb_spec header "") as [->|Hne].
  - split; [discriminate|]. by intros [? _].
  - rewrite parseCookies_parts, parse_parts_None by done. split; [by split|by intros [_ ?]].
Qed.

(** X29.  Of several cookies of one name the last one counts: the object
    holds, under a name, the decoded value of the last part of the header
    with that name, and nothing under a name no part has. *)
Theorem last_cookie_wins (header key : string) (cookies : gmap string string) :
  header ≠ "" → key ≠ "__proto__" →
  parseCookies (Some header) = Some cookies →
  cookies !! key
    = last (filter (λ part, cookie_name part = key) (split ";" header)) ≫= cookie_value.
Proof.
  intros Hne Hkey. rewrite parseCookies_parts by done. intros Hloop. by apply parse_parts_lookup.
Qed.

End Parse.

End CookieProperties.

(* ===================================================================== *)
(** * The further properties on the concrete server and viewer            *)
(* ===================================================================== *)

Lemma logged_in_socket_sets : socket_sets logged_in.
Proof. intros r l Hl. vm_compute in Hl. discriminate. Qed.

Lemma empty_server_emails_unique : emails_unique empty_server.
Proof. intros i j u v Hu. vm_compute in Hu. discriminate. Qed.

Lemma two_joiners_same_state_witness :
  let s2 := (@ws_open sample_clock 2%nat "main"
               (@ws_open sample_clock 1%nat "main" logged_in).2).2 in
  room_state logged_in !! "main" = None ∧
  room_state s2 !! "main" = Some (mkRoom None zero 1 one (sample_clock (tick logged_in))) ∧
  1%nat ∈ members "main" s2 ∧ 2%nat ∈ members "main" s2.
Proof.
  intros s2.
  assert (Hfresh : room_state logged_in !! "main" = None) by (vm_compute; reflexivity).
  split; [exact Hfresh|].
  destruct (@two_joiners_same_state sample_clock 1%nat 2%nat "main" logged_in Hfresh)
    as (_ & Hrow & H1 & H2).
  split; [exact Hrow|]. split; [exact H1|exact H2].
Defined.

Lemma one_copy_per_member_witness :
  let s' := (@ws_message sample_clock sample_env 1%nat "main" pause_frame watching).2 in
  socket_sets logged_in ∧ is_accepted_action pause_frame ∧
  members "main" watching = [1%nat; 2%nat] ∧
  ∃ next t,
    let m := mkStateMsg "main" (video_path next) (position next) (paused next =? 1)
               (playback_rate next) (updated_at next) t in
    room_state s' !! "main" = Some next ∧
    outbox s' = outbox watching ++ [(1%nat, m); (2%nat, m)].
Proof.
  intros s'.
  assert (Hframe : is_accepted_action pause_frame).
  { exists (action_payload "pause" (Js.Num 50) (Js.Num 1)), "pause".
    split; [reflexivity|]. split; [reflexivity|]. split; [reflexivity|].
    apply (bool_decide_unpack _). exact I. }
  assert (Hmembers : members "main" watching = [1%nat; 2%nat]) by (vm_compute; reflexivity).
  split; [exact logged_in_socket_sets|]. split; [exact Hframe|]. split; [exact Hmembers|].
  destruct (@one_copy_per_member sample_clock sample_env evening logged_in 1%nat "main"
              pause_frame logged_in_socket_sets Hframe) as (next & t & Hrow & Hout & _).
  exists next, t. split; [exact Hrow|].
  unfold s'. fold watching in Hout. rewrite Hout, Hmembers. reflexivity.
Defined.



Lemma expired_session_is_deleted_witness :
  let sess := mkSessionRow 1 1700604800750 1700000001000 in
  let lookup := @getSession next_week admin_request logged_in in
  sessions logged_in !! "s3ss10n" = Some sess ∧
  expires_at sess < next_week (tick logged_in) ∧
  lookup.1 = None ∧ sessions lookup.2 !! "s3ss10n" = None.
Proof.
  intros sess lookup.
  assert (Hsess : sessions logged_in !! "s3ss10n" = Some sess) by (vm_compute; reflexivity).
  assert (Hexpired : expires_at sess < next_week (tick logged_in)) by (vm_compute; reflexivity).
  split; [exact Hsess|]. split; [exact Hexpired|].
  destruct (@expired_session_is_deleted next_week "s3ss10n" sess
              (mkUser "admin@example.com" 1 1700000000000) logged_in) as [Hfirst _].
  - discriminate.
  - exact Hsess.
  - vm_compute. reflexivity.
  - exact Hexpired.
  - unfold lookup, admin_request. rewrite Hfirst. split; [reflexivity|].
    cbn [snd sessions set_sessions set_tick]. apply lookup_delete_eq.
Defined.

Lemma logout_ends_every_session_witness :
  let admin := mkSession 1 "admin@example.com" true in
  let s' := (@api_auth_logout sample_clock admin_request watching).2 in
  (@getSession sample_clock admin_request watching).1 = Some admin ∧
  (@getSession sample_clock admin_request s').1 = None ∧
  users s' = users watching.
Proof.
  intros admin s'.
  assert (Hfound : (@getSession sample_clock admin_request watching).1 = Some admin)
    by (vm_compute; reflexivity).
  split; [exact Hfound|].
  destruct (@logout_ends_every_session sample_clock admin_request watching admin Hfound)
    as (Hnone & _ & Husers).
  split; [|exact Husers]. fold s' in Hnone.
  destruct (@getSession sample_clock admin_request s').1 as [session'|] eqn:E; [|reflexivity].
  destruct (Hnone admin_request session' E). vm_compute in E. discriminate E.
Defined.

Lemma only_acceptance_adds_users_witness :
  let ev := PostLogin (Some "stranger@example.com") "t0k3n" in
  (∀ body_token body_email sessionToken,
     ev ≠ PostInvitesAccept body_token body_email sessionToken) ∧
  select_user_by_email (users seeded) "stranger@example.com" = None ∧
  (@handle sample_clock sample_env ev seeded).2 = seeded.
Proof.
  intros ev.
  assert (Hev : ∀ body_token body_email sessionToken,
            ev ≠ PostInvitesAccept body_token body_email sessionToken) by discriminate.
  assert (Hnone : select_user_by_email (users seeded) "stranger@example.com" = None)
    by (vm_compute; reflexivity).
  split; [exact Hev|]. split; [exact Hnone|].
  destruct (@only_acceptance_adds_users sample_clock sample_env ev seeded Hev) as [_ Hlogin].
  exact (proj1 (Hlogin (Some "stranger@example.com") "t0k3n" eq_refl Hnone)).
Defined.

Lemma invite_uses_bound_acceptances_witness :
  let invite := mkInvite (Some "guest@example.com") 1 None (Some "admin@example.com")
                  1700000001500 in
  invites invited !! "1nv1t3" = Some invite ∧
  (@acceptances sample_clock sample_env "1nv1t3" two_acceptances invited ≤ 1)%nat.
Proof.
  intros invite.
  assert (Hinvite : invites invited !! "1nv1t3" = Some invite) by (vm_compute; reflexivity).
  split; [exact Hinvite|].
  exact (@invite_uses_bound_acceptances sample_clock sample_env "1nv1t3" two_acceptances
           invited invite Hinvite).
Defined.

Lemma emails_stay_unique_witness :
  emails_unique empty_server ∧
  emails_unique
    (@run sample_clock sample_env guest_evening
       (@seedUsers sample_clock "development" [] ["admin@example.com"] empty_server).2).
Proof.
  split; [exact empty_server_emails_unique|].
  exact (@emails_stay_unique sample_clock sample_env "development" [] ["admin@example.com"]
           guest_evening empty_server empty_server_emails_unique).
Defined.

Lemma seedUsers_makes_administrators_witness :
  ("development" ≠ "production" ∧ @nil string = [] ∧
   "user1@example.com" ∈ ["admin@example.com"; "user1@example.com"; "user2@example.com"]) ∧
  ∃ id u, users seeded !! id = Some u ∧ email u = "user1@example.com" ∧ is_admin u = 1.
Proof.
  assert (Hexample : "development" ≠ "production" ∧ @nil string = [] ∧
            "user1@example.com"
              ∈ ["admin@example.com"; "user1@example.com"; "user2@example.com"]).
  { split; [discriminate|]. split; [reflexivity|]. apply (bool_decide_unpack _). exact I. }
  split; [exact Hexample|].
  exact (@seedUsers_makes_administrators sample_clock "development" [] [] empty_server
           "user1@example.com" (or_intror (or_intror Hexample))).
Defined.

Lemma no_echo_within_window_witness :
  let data := paused_at_10 (Some "movie.mp4") in
  let c1 := (@Client.applyState sample_clock sample_browser data (viewer_at 9)).2 in
  let evs := [Client.PauseEvent; Client.RateChangeEvent] in
  Forall Client.from_element evs ∧
  Client.ignoreEventsUntil c1 = 1700000000850 ∧
  Client.reads (@Client.run sample_clock sample_browser evs c1) = 4%nat ∧
  Client.sent (@Client.run sample_clock sample_browser evs c1) = [].
Proof.
  intros data c1 evs.
  assert (Hevs : Forall Client.from_element evs).
  { repeat (apply Forall_cons_2; [split; discriminate|]). apply Forall_nil_2. }
  assert (Hdeadline : Client.ignoreEventsUntil c1 = 1700000000850) by (vm_compute; reflexivity).
  assert (Hreads : Client.reads (@Client.run sample_clock sample_browser evs c1) = 4%nat)
    by (vm_compute; reflexivity).
  split; [exact Hevs|]. split; [exact Hdeadline|]. split; [exact Hreads|].
  apply (@ReconcilerMore.no_echo_within_window sample_clock sample_browser data (viewer_at 9)
           evs sample_clock_monotone Hevs).
  fold c1. rewrite Hreads, Hdeadline. intros n Hn. unfold clock, sample_clock. lia.
Defined.


Lemma same_video_keeps_source_witness :
  let data := playing_at_10 (Some "movie.mp4") in
  let c' := (@Client.applyState sample_clock sample_browser data (viewer_at 9)).2 in
  Client.videoPath data = Client.currentVideo (viewer_at 9) ∧
  Client.src (Client.el c') = Some "movie.mp4" ∧
  Client.currentVideo c' = Some "movie.mp4".
Proof.
  intros data c'. split; [reflexivity|].
  destruct (@ReconcilerMore.same_video_keeps_source sample_clock sample_browser data
              (viewer_at 9) eq_refl) as (Hsrc & Hcur & _).
  split; [exact Hsrc|exact Hcur].
Defined.

Lemma hub_applies_sent_action_witness :
  let s' := (@ws_message sample_clock sample_env 1%nat "main"
               (Client.on_the_wire seek_to_30) watching).2 in
  Client.action seek_to_30 ∈ ["play"; "pause"; "seek"; "rate"] ∧
  ∃ next, room_state s' !! "main" = Some next ∧
          video_path next = Some "movie.mp4" ∧ paused next = 0 ∧ position next = 30%float.
Proof.
  intros s'.
  assert (Hkind : Client.action seek_to_30 ∈ ["play"; "pause"; "seek"; "rate"]).
  { apply (bool_decide_unpack _). exact I. }
  split; [exact Hkind|].
  destruct (@hub_applies_sent_action sample_clock sample_env seek_to_30 1%nat "main" watching
              Hkind) as (next & Hrow & Hvideo & Hpaused & Hposition & _).
  exists next. split; [exact Hrow|].
  split; [rewrite Hvideo; vm_compute; reflexivity|].
  split; [rewrite Hpaused; vm_compute; reflexivity|].
  rewrite Hposition. vm_compute. reflexivity.
Defined.

Lemma truncateMiddle_keeps_both_ends_witness :
  0 ≤ 28 ∧ 0 < 12 ∧ 28 + 12 + 3 < Z.of_nat (String.length long_file) ∧
  Z.of_nat (String.length (Page.option_label long_file)) = 43 ∧
  Page.option_label long_file = "Season 1/A long directory wi...me in it.mkv".
Proof.
  assert (Hfront : 0 ≤ 28) by lia. assert (Hback : 0 < 12) by lia.
  assert (Hlong : 28 + 12 + 3 < Z.of_nat (String.length long_file)) by (vm_compute; reflexivity).
  split; [exact Hfront|]. split; [exact Hback|]. split; [exact Hlong|].
  destruct (PageProperties.truncateMiddle_keeps_both_ends long_file 28 12 Hfront Hback)
    as [_ Hcut].
  destruct (Hcut Hlong) as [Hlength _].
  split; [exact Hlength|]. vm_compute. reflexivity.
Defined.

Lemma truncateMiddle_idempotent_witness :
  0 ≤ 28 ∧ 0 < 12 ∧
  Page.truncateMiddle (Page.option_label long_file) 28 12 = Page.option_label long_file.
Proof.
  assert (Hfront : 0 ≤ 28) by lia. assert (Hback : 0 < 12) by lia.
  split; [exact Hfront|]. split; [exact Hback|].
  exact (PageProperties.truncateMiddle_idempotent long_file 28 12 Hfront Hback).
Defined.

Lemma isValidEmail_needs_backslash_witness :
  Page.has_unit Page.backslash "user@example.com" = false ∧
  Page.isValidEmail "user@example.com" = false.
Proof.
  split; [reflexivity|]. apply PageProperties.isValidEmail_needs_backslash. reflexivity.
Defined.

Lemma cookie_value_keeps_equals_signs_witness :
  @String_trim sample_env "sp_session=bmV3=" = "sp_session" +:+ "=" +:+ "bmV3=" ∧
  Page.has_unit Cookies.equals_sign "sp_session" = false ∧
  @Cookies.cookie_name sample_env "sp_session=bmV3=" = "sp_session" ∧
  @Cookies.cookie_value sample_env sample_uri "sp_session=bmV3=" = Some "bmV3=".
Proof.
  split; [reflexivity|]. split; [reflexivity|].
  destruct (@CookieProperties.cookie_value_keeps_equals_signs sample_env sample_uri
              "sp_session=bmV3=" "sp_session" "bmV3=" ∅ eq_refl eq_refl) as (Hname & Hvalue & _).
  split; [exact Hname|]. rewrite Hvalue. reflexivity.
Defined.

Lemma last_cookie_wins_witness :
  let cookies : gmap string string := <["sp_session" := "bmV3="]> (<["theme" := "dark"]> ∅) in
  two_sessions ≠ "" ∧ "sp_session" ≠ "__proto__" ∧
  @Cookies.parseCookies sample_env sample_uri (Some two_sessions) = Some cookies ∧
  cookies !! "sp_session" = Some "bmV3=".
Proof.
  intros cookies.
  assert (Hheader : two_sessions ≠ "") by discriminate.
  assert (Hkey : "sp_session" ≠ "__proto__") by discriminate.
  assert (Hparse : @Cookies.parseCookies sample_env sample_uri (Some two_sessions)
                   = Some cookies) by (vm_compute; reflexivity).
  split; [exact Hheader|]. split; [exact Hkey|]. split; [exact Hparse|].
  rewrite (@CookieProperties.last_cookie_wins sample_env sample_uri two_sessions "sp_session"
             cookies Hheader Hkey Hparse).
  vm_compute. reflexivity.
Defined.
